(** * Currency pairs of gocryptotrader (package [pair])

    A shallow embedding of the Go package [pair]: the value type
    [CurrencyPair], its constructors from raw strings, the comparison
    [Equal] and the bulk operations over slices of pairs.

    Go strings are byte sequences: they are modelled by [string], whose
    characters ([ascii]) are the bytes.  [len] counts bytes and slicing is
    by byte offsets, as in Go.  Go's [int] is modelled by [Z]; the only
    integers that occur are byte offsets, lengths and the [-1] of
    [strings.Index], so no wrap-around can happen.

    A Go function that panics has no result: every function that indexes
    or slices returns a [result], whose [Panic] case carries the run-time
    error. *)

From Stdlib Require Import String Ascii List ZArith NArith Lia Bool.
Import ListNotations.

Open Scope string_scope.
Open Scope Z_scope.

(** ** The Go run time: panics, indexing and slicing *)

Module GoRuntime.

(** The two run-time errors the package can raise. *)
Inductive runtimeError : Type :=
| IndexOutOfRange        (* a[i] with i outside 0 <= i < len(a) *)
| SliceBoundsOutOfRange. (* s[lo:hi] without 0 <= lo <= hi <= len(s) *)

Inductive result (A : Type) : Type :=
| Ok (a : A)
| Panic (e : runtimeError).

Arguments Ok {A} a.
Arguments Panic {A} e.

Definition bind {A B : Type} (r : result A) (k : A -> result B) : result B :=
  match r with
  | Ok a => k a
  | Panic e => Panic e
  end.

Notation "x <- r ;; k" := (bind r (fun x => k))
  (at level 61, r at next level, right associativity).

(** [len(s)] of a string, in bytes. *)
Definition len (s : string) : Z := Z.of_nat (String.length s).

(** The first [n] bytes of [s], and [s] without them. *)
Fixpoint take (n : nat) (s : string) : string :=
  match n, s with
  | S n', String c s' => String c (take n' s')
  | _, _ => EmptyString
  end.

Fixpoint drop (n : nat) (s : string) : string :=
  match n, s with
  | S n', String _ s' => drop n' s'
  | _, _ => s
  end.

(** [s[lo:hi]]: panics unless [0 <= lo <= hi <= len(s)]. *)
Definition slice (s : string) (lo hi : Z) : result string :=
  if (0 <=? lo) && (lo <=? hi) && (hi <=? len s)
  then Ok (take (Z.to_nat (hi - lo)) (drop (Z.to_nat lo) s))
  else Panic SliceBoundsOutOfRange.

(** [s[lo:]], which is [s[lo:len(s)]]. *)
Definition sliceFrom (s : string) (lo : Z) : result string :=
  slice s lo (len s).

(** [a[i]] on a slice: panics unless [0 <= i < len(a)]. *)
Definition at_index {A : Type} (a : list A) (i : Z) : result A :=
  if (0 <=? i) && (i <? Z.of_nat (List.length a))
  then match nth_error a (Z.to_nat i) with
       | Some x => Ok x
       | None => Panic IndexOutOfRange
       end
  else Panic IndexOutOfRange.

End GoRuntime.

(** ** The functions of Go's [strings] and [unicode/utf8] the package calls *)

Module Strings.
Import GoRuntime.

(** [strings.HasPrefix(s, prefix)]. *)
Fixpoint HasPrefix (s prefix : string) {struct prefix} : bool :=
  match prefix, s with
  | EmptyString, _ => true
  | String c p', String d s' => Ascii.eqb c d && HasPrefix s' p'
  | String _ _, EmptyString => false
  end.

(** The byte offset of the first occurrence of [substr] in [s], if any. *)
Fixpoint firstOccurrence (s substr : string) : option nat :=
  if HasPrefix s substr then Some O
  else match s with
       | EmptyString => None
       | String _ s' => option_map S (firstOccurrence s' substr)
       end.

(** [strings.Index(s, substr)]: the offset of the first occurrence, or [-1]. *)
Definition Index (s substr : string) : Z :=
  match firstOccurrence s substr with
  | Some n => Z.of_nat n
  | None => -1
  end.

(** [strings.Contains(s, substr)], which is [Index(s, substr) >= 0]. *)
Definition Contains (s substr : string) : bool := 0 <=? Index s substr.

(** [strings.Count(s, substr)] for a non-empty [substr]: the loop
    [i := Index(s, substr); if i == -1 return n; n++; s = s[i+len(substr):]].
    Each round removes at least one byte, so [String.length s] rounds are
    enough ([Count]). *)
Fixpoint countLoop (fuel : nat) (s substr : string) : nat :=
  match fuel with
  | O => O
  | S fuel' =>
      match firstOccurrence s substr with
      | None => O
      | Some i => S (countLoop fuel' (drop (i + String.length substr) s) substr)
      end
  end.

Definition Count (s substr : string) : nat :=
  countLoop (String.length s) s substr.

(** The loop of [genSplit]: at most [n] separators are consumed,
    [m := Index(s, sep); if m < 0 break; a[i] = s[:m]; s = s[m+len(sep):]],
    and what is left of [s] is the last element. *)
Fixpoint genSplitLoop (n : nat) (s sep : string) : list string :=
  match n with
  | O => [s]
  | S n' =>
      match firstOccurrence s sep with
      | None => [s]
      | Some m => take m s :: genSplitLoop n' (drop (m + String.length sep) s) sep
      end
  end.

(** The table [first] and the accept ranges of [unicode/utf8]: for a leading
    byte of a multi-byte sequence, its size and the range of the second byte;
    [None] for ASCII and for invalid leading bytes (both of width 1). *)
Definition first (b : N) : option (nat * N * N) :=
  (if b <? 0xC2 then None
   else if b <? 0xE0 then Some (2%nat, 0x80, 0xBF)
   else if b =? 0xE0 then Some (3%nat, 0xA0, 0xBF)
   else if b =? 0xED then Some (3%nat, 0x80, 0x9F)
   else if b <? 0xF0 then Some (3%nat, 0x80, 0xBF)
   else if b =? 0xF0 then Some (4%nat, 0x90, 0xBF)
   else if b <? 0xF4 then Some (4%nat, 0x80, 0xBF)
   else if b =? 0xF4 then Some (4%nat, 0x80, 0x8F)
   else None)%N.

Definition byteAt (s : string) (i : nat) : N :=
  match String.get i s with
  | Some c => N_of_ascii c
  | None => 0%N
  end.

Definition outside (lo hi b : N) : bool := ((b <? lo) || (hi <? b))%N.

(** The width returned by [utf8.DecodeRuneInString(s)]: an invalid or short
    encoding is one rune of width 1. *)
Definition runeSize (s : string) : nat :=
  match s with
  | EmptyString => O
  | String c0 _ =>
      match first (N_of_ascii c0) with
      | None => 1%nat
      | Some (sz, lo, hi) =>
          if (String.length s <? sz)%nat then 1%nat
          else if outside lo hi (byteAt s 1) then 1%nat
          else if (sz <=? 2)%nat then 2%nat
          else if outside 0x80 0xBF (byteAt s 2) then 1%nat
          else if (sz <=? 3)%nat then 3%nat
          else if outside 0x80 0xBF (byteAt s 3) then 1%nat
          else 4%nat
      end
  end.

(** [explode(s, -1)]: [s] cut into its UTF-8 sequences.  A rune has at
    least one byte, so [String.length s] rounds are enough. *)
Fixpoint explodeLoop (fuel : nat) (s : string) : list string :=
  match fuel, s with
  | S fuel', String _ _ =>
      take (runeSize s) s :: explodeLoop fuel' (drop (runeSize s) s)
  | _, _ => []
  end.

Definition explode (s : string) : list string :=
  explodeLoop (String.length s) s.

(** [strings.Split(s, sep)], which is [genSplit(s, sep, 0, -1)]: with an
    empty separator the UTF-8 sequences of [s]; otherwise
    [n = Count(s, sep) + 1], capped by [len(s) + 1], and the loop runs while
    [i < n - 1]. *)
Definition Split (s sep : string) : list string :=
  match sep with
  | EmptyString => explode s
  | String _ _ =>
      let n := Nat.min (Count s sep + 1) (String.length s + 1) in
      genSplitLoop (n - 1) s sep
  end.

(** [strings.Join(elems, sep)]; the package does not call it, it states what
    [Split] returns. *)
Fixpoint Join (elems : list string) (sep : string) : string :=
  match elems with
  | [] => EmptyString
  | x :: rest =>
      match rest with
      | [] => x
      | _ :: _ => (x ++ sep ++ Join rest sep)%string
      end
  end.

(** The text of [s] before the first occurrence of [sep], all of [s] when
    there is none: what the first round of the loop of [genSplit] yields. *)
Definition firstField (s sep : string) : string :=
  match firstOccurrence s sep with
  | Some k => take k s
  | None => s
  end.

End Strings.

(** ** Package [pair] *)

Module Pair.
Import GoRuntime Strings.

(** [strings.ToUpper] and [common.StringToUpper] map letters through the
    Unicode case tables; the package only compares their results, so they
    are taken as given. *)
Class CaseMapping : Type := {
  ToUpper : string -> string;
  StringToUpper : string -> string
}.

(** [CurrencyItem] is a named string type. *)
Definition CurrencyItem : Type := string.

Record CurrencyPair : Type := {
  Delimiter : string;
  FirstCurrency : CurrencyItem;
  SecondCurrency : CurrencyItem
}.

(** [CurrencyPair{}], all fields empty. *)
Definition zeroPair : CurrencyPair :=
  {| Delimiter := EmptyString;
     FirstCurrency := EmptyString;
     SecondCurrency := EmptyString |}.

Section Methods.
Context `{CaseMapping}.

Definition Upper (c : CurrencyItem) : CurrencyItem := ToUpper c.

Definition Pair (c : CurrencyPair) : CurrencyItem :=
  (FirstCurrency c ++ Delimiter c ++ SecondCurrency c)%string.

Definition Equal (c p : CurrencyPair) (exact : bool) : bool :=
  if negb exact then
    if (Upper (FirstCurrency c) =? Upper (FirstCurrency p))%string &&
       (Upper (SecondCurrency c) =? Upper (SecondCurrency p))%string ||
       (Upper (FirstCurrency c) =? Upper (SecondCurrency p))%string &&
       (Upper (SecondCurrency c) =? Upper (FirstCurrency p))%string
    then true else false
  else
    if (Upper (FirstCurrency c) =? Upper (FirstCurrency p))%string &&
       (Upper (SecondCurrency c) =? Upper (SecondCurrency p))%string
    then true else false.

Definition Swap (c : CurrencyPair) : CurrencyPair :=
  {| Delimiter := Delimiter c;
     FirstCurrency := SecondCurrency c;
     SecondCurrency := FirstCurrency c |}.

Definition NewCurrencyPairDelimiter (currency delimiter : string)
  : result CurrencyPair :=
  let result := Split currency delimiter in
  r0 <- at_index result 0 ;;
  r1 <- at_index result 1 ;;
  Ok {| Delimiter := delimiter;
        FirstCurrency := r0;
        SecondCurrency := r1 |}.

Definition NewCurrencyPair (firstCurrency secondCurrency : string)
  : CurrencyPair :=
  {| Delimiter := EmptyString;
     FirstCurrency := firstCurrency;
     SecondCurrency := secondCurrency |}.

Definition NewCurrencyPairFromIndex (currency index : string)
  : result CurrencyPair :=
  let i := Index currency index in
  if i =? 0 then
    a <- slice currency 0 (len index) ;;
    b <- sliceFrom currency (len index) ;;
    Ok (NewCurrencyPair a b)
  else
    a <- slice currency 0 i ;;
    b <- sliceFrom currency i ;;
    Ok (NewCurrencyPair a b).

(** The loop [for _, x := range delimiters] of [NewCurrencyPairFromString]:
    [Some] is its early [return], [None] is falling out of the loop. *)
Fixpoint delimiterLoop (currency : string) (delimiters : list string)
  : option (result CurrencyPair) :=
  match delimiters with
  | [] => None
  | x :: rest =>
      if Strings.Contains currency x
      then Some (NewCurrencyPairDelimiter currency x)
      else delimiterLoop currency rest
  end.

Definition NewCurrencyPairFromString (currency : string)
  : result CurrencyPair :=
  match delimiterLoop currency ["_"; "-"] with
  | Some r => r
  | None =>
      a <- slice currency 0 3 ;;
      b <- sliceFrom currency 3 ;;
      Ok (NewCurrencyPair a b)
  end.

Fixpoint Contains (pairs : list CurrencyPair) (p : CurrencyPair)
  (exact : bool) : bool :=
  match pairs with
  | [] => false
  | x :: rest => if Equal x p exact then true else Contains rest p exact
  end.

Definition ContainsCurrency (p : CurrencyPair) (c : string) : bool :=
  (Upper (FirstCurrency p) =? StringToUpper c)%string ||
  (Upper (SecondCurrency p) =? StringToUpper c)%string.

(** The loop of [RemovePairsByFilter]; [pairs] is the slice built so far by
    [append]. *)
Fixpoint removeLoop (p : list CurrencyPair) (filter : string)
  (pairs : list CurrencyPair) : list CurrencyPair :=
  match p with
  | [] => pairs
  | x :: rest =>
      if ContainsCurrency x filter
      then removeLoop rest filter pairs
      else removeLoop rest filter (pairs ++ [x])
  end.

Definition RemovePairsByFilter (p : list CurrencyPair) (filter : string)
  : list CurrencyPair :=
  removeLoop p filter [].

Fixpoint CopyPairFormat (p : CurrencyPair) (pairs : list CurrencyPair)
  (exact : bool) : CurrencyPair :=
  match pairs with
  | [] => zeroPair
  | x :: rest => if Equal p x exact then x else CopyPairFormat p rest exact
  end.

End Methods.

(** [strings.ToLower], taken as given like [strings.ToUpper]. *)
Class LowerMapping : Type := {
  ToLower : string -> string
}.

(** [common.StringDataCompareUpper(haystack, needle)] of the package
    [common]: whether [needle] is in [haystack], letter case apart.  The
    package [pair] only branches on its result, so it is taken as given. *)
Class CommonStrings : Type := {
  StringDataCompareUpper : list string -> string -> bool
}.

Section Formatting.
Context `{CaseMapping} `{LowerMapping} `{CommonStrings}.

Definition Lower (c : CurrencyItem) : CurrencyItem := ToLower c.

(** The method [String] of [CurrencyItem], a conversion to [string]. *)
Definition CurrencyItem_String (c : CurrencyItem) : string := c.

Definition Display (c : CurrencyPair) (delimiter : string) (uppercase : bool)
  : CurrencyItem :=
  let pair :=
    if negb (delimiter =? EmptyString)%string
    then (FirstCurrency c ++ delimiter ++ SecondCurrency c)%string
    else (FirstCurrency c ++ SecondCurrency c)%string in
  if uppercase then Upper pair else Lower pair.

(** The loop of [FormatPairs]; [result] is the slice built so far, and a
    panic of one of the constructors ends the loop. *)
Fixpoint formatLoop (pairs : list string) (delimiter index : string)
  (result : list CurrencyPair) : GoRuntime.result (list CurrencyPair) :=
  match pairs with
  | [] => Ok result
  | x :: rest =>
      if (x =? EmptyString)%string
      then formatLoop rest delimiter index result
      else
        p <- (if negb (delimiter =? EmptyString)%string
              then NewCurrencyPairDelimiter x delimiter
              else if negb (index =? EmptyString)%string
                   then NewCurrencyPairFromIndex x index
                   else (a <- slice x 0 3 ;;
                         b <- sliceFrom x 3 ;;
                         Ok (NewCurrencyPair a b))) ;;
        formatLoop rest delimiter index (result ++ [p])
  end.

Definition FormatPairs (pairs : list string) (delimiter index : string)
  : GoRuntime.result (list CurrencyPair) :=
  formatLoop pairs delimiter index [].

(** The pair that one round of the loop of [FormatPairs] builds from a
    non-empty entry: the branch on [delimiter] and [index], alone. *)
Definition formatEntry (x delimiter index : string)
  : GoRuntime.result CurrencyPair :=
  if negb (delimiter =? EmptyString)%string
  then NewCurrencyPairDelimiter x delimiter
  else if negb (index =? EmptyString)%string
       then NewCurrencyPairFromIndex x index
       else (a <- slice x 0 3 ;;
             b <- sliceFrom x 3 ;;
             Ok (NewCurrencyPair a b)).

(** The entries that the loop of [FormatPairs] does not skip. *)
Definition nonEmpty (x : string) : bool := negb (x =? EmptyString)%string.

(** The first loop of [FindPairDifferences], over [newPairs]. *)
Fixpoint newLoop (newPairs oldPairs : list string) (newPs : list string)
  : list string :=
  match newPairs with
  | [] => newPs
  | x :: rest =>
      if (x =? EmptyString)%string
      then newLoop rest oldPairs newPs
      else if negb (StringDataCompareUpper oldPairs x)
           then newLoop rest oldPairs (newPs ++ [x])
           else newLoop rest oldPairs newPs
  end.

(** The second loop of [FindPairDifferences], over [oldPairs]. *)
Fixpoint removedLoop (oldPairs newPairs : list string)
  (removedPs : list string) : list string :=
  match oldPairs with
  | [] => removedPs
  | x :: rest =>
      if (x =? EmptyString)%string
      then removedLoop rest newPairs removedPs
      else if negb (StringDataCompareUpper newPairs x)
           then removedLoop rest newPairs (removedPs ++ [x])
           else removedLoop rest newPairs removedPs
  end.

Definition FindPairDifferences (oldPairs newPairs : list string)
  : list string * list string :=
  let newPs := newLoop newPairs oldPairs [] in
  let removedPs := removedLoop oldPairs newPairs [] in
  (newPs, removedPs).

(** The loop of [PairsToStringArray]; [p] is the slice built so far. *)
Fixpoint stringArrayLoop (pairs : list CurrencyPair) (p : list string)
  : list string :=
  match pairs with
  | [] => p
  | x :: rest => stringArrayLoop rest (p ++ [CurrencyItem_String (Pair x)])
  end.

Definition PairsToStringArray (pairs : list CurrencyPair) : list string :=
  stringArrayLoop pairs [].

End Formatting.

(** A case mapping for concrete runs: on ASCII strings it is what
    [strings.ToUpper] computes. *)
Definition upperByte (c : ascii) : ascii :=
  let n := N_of_ascii c in
  if ((0x61 <=? n) && (n <=? 0x7A))%N then ascii_of_N (n - 0x20) else c.

Fixpoint upperASCII (s : string) : string :=
  match s with
  | EmptyString => EmptyString
  | String c s' => String (upperByte c) (upperASCII s')
  end.

Definition asciiCase : CaseMapping :=
  {| ToUpper := upperASCII; StringToUpper := upperASCII |}.

(** Lower case and the membership check for concrete runs, on ASCII
    strings. *)
Definition lowerByte (c : ascii) : ascii :=
  let n := N_of_ascii c in
  if ((0x41 <=? n) && (n <=? 0x5A))%N then ascii_of_N (n + 0x20) else c.

Fixpoint lowerASCII (s : string) : string :=
  match s with
  | EmptyString => EmptyString
  | String c s' => String (lowerByte c) (lowerASCII s')
  end.

Definition asciiLower : LowerMapping := {| ToLower := lowerASCII |}.

Definition asciiCommon : CommonStrings :=
  {| StringDataCompareUpper := fun haystack needle =>
       existsb (fun h => (upperASCII h =? upperASCII needle)%string) haystack |}.

End Pair.

(** ** Facts about byte strings and about the [strings] functions *)

Module StringFacts.
Import GoRuntime Strings.

Lemma take_drop (n : nat) (s : string) : (take n s ++ drop n s)%string = s.
Proof.
  revert s; induction n as [|n IH]; intros [|c s]; simpl; try reflexivity.
  now rewrite IH.
Qed.

Lemma take_app_length (a b : string) : take (String.length a) (a ++ b) = a.
Proof.
  induction a as [|c a IH]; simpl.
  - now destruct b.
  - now rewrite IH.
Qed.

Lemma drop_app_length (a b : string) : drop (String.length a) (a ++ b) = b.
Proof. induction a as [|c a IH]; simpl; auto. Qed.

Lemma drop_add (n m : nat) (s : string) : drop (n + m) s = drop m (drop n s).
Proof.
  revert s; induction n as [|n IH]; intros s; simpl; [reflexivity|].
  destruct s as [|c s]; [now destruct m | apply IH].
Qed.

Lemma length_drop (n : nat) (s : string) :
  String.length (drop n s) = (String.length s - n)%nat.
Proof.
  revert s; induction n as [|n IH]; intros [|c s]; simpl; auto.
Qed.

Lemma length_take (n : nat) (s : string) :
  String.length (take n s) = Nat.min n (String.length s).
Proof.
  revert s; induction n as [|n IH]; intros [|c s]; simpl; auto.
Qed.

Lemma take_all (n : nat) (s : string) :
  (String.length s <= n)%nat -> take n s = s.
Proof.
  revert s; induction n as [|n IH]; intros [|c s]; simpl; intros Hn;
    try reflexivity; try lia.
  rewrite IH; [reflexivity | lia].
Qed.

Lemma length_append (a b : string) :
  String.length (a ++ b) = (String.length a + String.length b)%nat.
Proof. induction a as [|c a IH]; simpl; auto. Qed.

(** *** [HasPrefix] *)

Lemma HasPrefix_app (p r : string) : HasPrefix (p ++ r) p = true.
Proof.
  induction p as [|c p IH]; simpl; [reflexivity|].
  now rewrite Ascii.eqb_refl, IH.
Qed.

Lemma HasPrefix_inv (s p : string) :
  HasPrefix s p = true -> s = (p ++ drop (String.length p) s)%string.
Proof.
  revert s; induction p as [|c p IH]; intros s Hp; simpl in *.
  - reflexivity.
  - destruct s as [|d s]; [discriminate|].
    apply andb_true_iff in Hp as [Hc Hp].
    apply Ascii.eqb_eq in Hc; subst d.
    simpl. now rewrite <- IH.
Qed.

Lemma HasPrefix_length (s p : string) :
  HasPrefix s p = true -> (String.length p <= String.length s)%nat.
Proof.
  intros Hp. rewrite (HasPrefix_inv _ _ Hp), length_append. lia.
Qed.

Lemma HasPrefix_empty (s : string) : HasPrefix s EmptyString = true.
Proof. reflexivity. Qed.

(** *** [firstOccurrence], [Index] and [Contains] *)

Lemma firstOccurrence_unfold (s sub : string) :
  firstOccurrence s sub =
  if HasPrefix s sub then Some O
  else match s with
       | EmptyString => None
       | String _ s' => option_map S (firstOccurrence s' sub)
       end.
Proof. destruct s; reflexivity. Qed.

(** At the offset found, [sub] is a prefix of what is left. *)
Lemma firstOccurrence_prefix (s sub : string) (n : nat) :
  firstOccurrence s sub = Some n -> HasPrefix (drop n s) sub = true.
Proof.
  revert n; induction s as [|c s IH]; intros n; rewrite firstOccurrence_unfold.
  - destruct (HasPrefix EmptyString sub) eqn:Hp; [|discriminate].
    intros [= <-]. exact Hp.
  - destruct (HasPrefix (String c s) sub) eqn:Hp.
    + intros [= <-]. exact Hp.
    + destruct (firstOccurrence s sub) as [k|]; simpl; [|discriminate].
      intros [= <-]. simpl. now apply IH.
Qed.

(** No earlier offset has [sub] as a prefix. *)
Lemma firstOccurrence_least (s sub : string) (n k : nat) :
  firstOccurrence s sub = Some n -> (k < n)%nat ->
  HasPrefix (drop k s) sub = false.
Proof.
  revert n k; induction s as [|c s IH]; intros n k;
    rewrite firstOccurrence_unfold.
  - destruct (HasPrefix EmptyString sub); [|discriminate].
    intros [= <-]; lia.
  - destruct (HasPrefix (String c s) sub) eqn:Hp.
    + intros [= <-]; lia.
    + destruct (firstOccurrence s sub) as [j|] eqn:Hj; simpl; [|discriminate].
      intros [= <-] Hk. destruct k as [|k]; simpl; [exact Hp|].
      apply (IH j); [reflexivity | lia].
Qed.

Lemma firstOccurrence_None (s sub : string) (k : nat) :
  firstOccurrence s sub = None -> HasPrefix (drop k s) sub = false.
Proof.
  revert k; induction s as [|c s IH]; intros k;
    rewrite firstOccurrence_unfold.
  - destruct (HasPrefix EmptyString sub) eqn:Hp; [discriminate|].
    intros _. now destruct k.
  - destruct (HasPrefix (String c s) sub) eqn:Hp; [discriminate|].
    destruct (firstOccurrence s sub) as [j|] eqn:Hj; simpl; [discriminate|].
    intros _. destruct k as [|k]; simpl; [exact Hp | now apply IH].
Qed.

(** The string around the first occurrence. *)
Lemma firstOccurrence_split (s sub : string) (n : nat) :
  firstOccurrence s sub = Some n ->
  s = (take n s ++ sub ++ drop (n + String.length sub) s)%string /\
  (n + String.length sub <= String.length s)%nat.
Proof.
  intros Hn. pose proof (firstOccurrence_prefix _ _ _ Hn) as Hp.
  split.
  - rewrite drop_add, <- (HasPrefix_inv _ _ Hp). symmetry; apply take_drop.
  - apply HasPrefix_length in Hp. rewrite length_drop in Hp.
    assert (n <= String.length s)%nat; [|lia].
    clear Hp. revert n Hn. induction s as [|c s IH]; intros n;
      rewrite firstOccurrence_unfold.
    + destruct (HasPrefix EmptyString sub); [|discriminate].
      intros [= <-]; simpl; lia.
    + destruct (HasPrefix (String c s) sub).
      * intros [= <-]; simpl; lia.
      * destruct (firstOccurrence s sub) as [j|] eqn:Hj; simpl; [|discriminate].
        intros [= <-]. specialize (IH j eq_refl). lia.
Qed.

(** Where the first occurrence is, when the string is given in three parts. *)
Lemma firstOccurrence_app (a sub b : string) :
  (forall k, (k < String.length a)%nat ->
             HasPrefix (drop k (a ++ sub ++ b)) sub = false) ->
  firstOccurrence (a ++ sub ++ b) sub = Some (String.length a).
Proof.
  induction a as [|c a IH]; intros Hno; cbn [String.append String.length].
  - rewrite firstOccurrence_unfold, HasPrefix_app. reflexivity.
  - assert (Hp : HasPrefix (String c (a ++ sub ++ b)) sub = false).
    { apply (Hno O). simpl; lia. }
    rewrite firstOccurrence_unfold, Hp, IH; [reflexivity|].
    intros k Hk. apply (Hno (S k)). simpl; lia.
Qed.

Lemma Index_Some (s sub : string) (n : nat) :
  firstOccurrence s sub = Some n -> Index s sub = Z.of_nat n.
Proof. unfold Index; now intros ->. Qed.

Lemma Index_None (s sub : string) :
  firstOccurrence s sub = None -> Index s sub = -1.
Proof. unfold Index; now intros ->. Qed.

Lemma Index_range (s sub : string) : -1 <= Index s sub <= len s.
Proof.
  unfold Index, len. destruct (firstOccurrence s sub) as [n|] eqn:Hn; [|lia].
  apply firstOccurrence_split in Hn as [_ Hn]. lia.
Qed.

Lemma Contains_true (s sub : string) :
  Contains s sub = true <-> exists n, firstOccurrence s sub = Some n.
Proof.
  unfold Contains, Index. destruct (firstOccurrence s sub) as [n|].
  - split; [eauto | intros _; apply Z.leb_le; lia].
  - split; [discriminate | intros [n Hn]; discriminate].
Qed.

Lemma Contains_false (s sub : string) :
  Contains s sub = false <-> firstOccurrence s sub = None.
Proof.
  unfold Contains, Index. destruct (firstOccurrence s sub) as [n|].
  - split; [|discriminate]. intros Hc. apply Z.leb_gt in Hc. lia.
  - split; reflexivity.
Qed.

(** The empty string occurs in every string. *)
Lemma Contains_empty (s : string) : Contains s EmptyString = true.
Proof.
  apply Contains_true. exists O.
  rewrite firstOccurrence_unfold. reflexivity.
Qed.

End StringFacts.

(** ** Facts about [strings.Count] and [strings.Split] *)

Module SplitFacts.
Import GoRuntime Strings StringFacts.

Lemma nonempty_length (sep : string) :
  sep <> EmptyString -> (1 <= String.length sep)%nat.
Proof. destruct sep; simpl; [congruence | lia]. Qed.

Lemma firstOccurrence_in_empty (sep : string) :
  sep <> EmptyString -> firstOccurrence EmptyString sep = None.
Proof. destruct sep; [congruence | reflexivity]. Qed.

Lemma length_zero (s : string) : String.length s = O -> s = EmptyString.
Proof. destruct s; [reflexivity | discriminate]. Qed.

(** The rounds of [Count] never exceed the fuel. *)
Lemma countLoop_le (f : nat) (s sep : string) : (countLoop f s sep <= f)%nat.
Proof.
  revert s; induction f as [|f IH]; intros s; simpl; [lia|].
  destruct (firstOccurrence s sep); [|lia].
  specialize (IH (drop (n + String.length sep) s)). lia.
Qed.

(** The loop of [Count] has ended once the fuel reaches the length of the
    string: more fuel gives the same count. *)
Lemma countLoop_enough (sep : string) (Hsep : sep <> EmptyString) :
  forall f1 f2 s,
    (String.length s <= f1)%nat -> (String.length s <= f2)%nat ->
    countLoop f1 s sep = countLoop f2 s sep.
Proof.
  pose proof (nonempty_length _ Hsep) as Hlen.
  induction f1 as [|f1 IH]; intros f2 s H1 H2.
  - assert (s = EmptyString) by (apply length_zero; lia). subst s.
    destruct f2; cbn [countLoop]; [reflexivity|].
    now rewrite firstOccurrence_in_empty.
  - destruct f2 as [|f2].
    + assert (s = EmptyString) by (apply length_zero; lia). subst s.
      cbn [countLoop]. now rewrite firstOccurrence_in_empty.
    + cbn [countLoop]. destruct (firstOccurrence s sep) as [i|] eqn:Hi; [|reflexivity].
      f_equal. apply firstOccurrence_split in Hi as [_ Hi].
      apply IH; rewrite length_drop; lia.
Qed.

Lemma Count_no_occurrence (s sep : string) :
  firstOccurrence s sep = None -> Count s sep = O.
Proof.
  unfold Count. intros Hn. destruct (String.length s); simpl; [reflexivity|].
  now rewrite Hn.
Qed.

(** One round of [Count]. *)
Lemma Count_occurrence (s sep : string) (m : nat) :
  sep <> EmptyString -> firstOccurrence s sep = Some m ->
  Count s sep = S (Count (drop (m + String.length sep) s) sep).
Proof.
  intros Hsep Hm. unfold Count.
  pose proof (nonempty_length _ Hsep) as Hlen.
  pose proof (firstOccurrence_split _ _ _ Hm) as [_ Hle].
  destruct (String.length s) as [|f] eqn:Hf; [lia|].
  simpl. rewrite Hm. f_equal.
  apply countLoop_enough; [assumption | | lia].
  rewrite length_drop. lia.
Qed.

(** The cap [n > len(s) + 1] of [genSplit] never applies. *)
Lemma Split_nonempty_sep (s sep : string) :
  sep <> EmptyString -> Split s sep = genSplitLoop (Count s sep) s sep.
Proof.
  intros Hsep. unfold Split. destruct sep as [|c sep]; [congruence|].
  pose proof (countLoop_le (String.length s) s (String c sep)) as Hle.
  fold (Count s (String c sep)) in Hle.
  replace (Nat.min (Count s (String c sep) + 1) (String.length s + 1) - 1)%nat
    with (Count s (String c sep)) by lia.
  reflexivity.
Qed.

(** [Split] when the separator does not occur: the string alone. *)
Lemma Split_no_occurrence (s sep : string) :
  firstOccurrence s sep = None -> Split s sep = [s].
Proof.
  intros Hn. assert (Hsep : sep <> EmptyString).
  { intros ->. rewrite firstOccurrence_unfold in Hn. discriminate. }
  rewrite Split_nonempty_sep, (Count_no_occurrence _ _ Hn) by assumption.
  reflexivity.
Qed.

(** [Split] at the first occurrence of a non-empty separator: the text
    before it, then the [Split] of the text after it. *)
Lemma Split_occurrence (s sep : string) (m : nat) :
  sep <> EmptyString -> firstOccurrence s sep = Some m ->
  Split s sep =
  take m s :: Split (drop (m + String.length sep) s) sep.
Proof.
  intros Hsep Hm.
  rewrite !Split_nonempty_sep, (Count_occurrence _ _ _ Hsep Hm) by assumption.
  simpl. now rewrite Hm.
Qed.

Lemma Split_head (s sep : string) :
  sep <> EmptyString ->
  exists rest, Split s sep = firstField s sep :: rest.
Proof.
  intros Hsep. unfold firstField.
  destruct (firstOccurrence s sep) as [k|] eqn:Hk.
  - rewrite (Split_occurrence _ _ _ Hsep Hk). eauto.
  - rewrite (Split_no_occurrence _ _ Hk). eauto.
Qed.

(** *** [Split] loses nothing: joining its result gives the string back *)

Lemma Join_cons (x y : string) (rest : list string) (sep : string) :
  Join (x :: y :: rest) sep = (x ++ sep ++ Join (y :: rest) sep)%string.
Proof. reflexivity. Qed.

Lemma append_empty_r (a : string) : (a ++ EmptyString)%string = a.
Proof. induction a as [|x a IH]; simpl; [reflexivity | now rewrite IH]. Qed.

Lemma Join_empty_sep (x : string) (rest : list string) :
  Join (x :: rest) EmptyString = (x ++ Join rest EmptyString)%string.
Proof.
  destruct rest as [|y rest]; [|reflexivity].
  cbn [Join]. now rewrite append_empty_r.
Qed.

(** A rune of a non-empty string has at least one byte. *)
Lemma runeSize_positive (c : ascii) (s : string) :
  (1 <= runeSize (String c s))%nat.
Proof.
  unfold runeSize.
  destruct (first (N_of_ascii c)) as [[[sz lo] hi]|]; [|lia].
  repeat match goal with
         | |- context [if ?b then _ else _] => destruct b
         end; lia.
Qed.

Lemma Join_explodeLoop (fuel : nat) (s : string) :
  (String.length s <= fuel)%nat ->
  Join (explodeLoop fuel s) EmptyString = s.
Proof.
  revert s; induction fuel as [|fuel IH]; intros s Hlen.
  - now rewrite (length_zero s) by lia.
  - destruct s as [|c s]; [reflexivity|].
    cbn [explodeLoop]. rewrite Join_empty_sep, IH.
    + apply take_drop.
    + pose proof (runeSize_positive c s). rewrite length_drop.
      cbn [String.length] in *. lia.
Qed.

Lemma Join_Split_nonempty_sep (sep : string) (Hsep : sep <> EmptyString) :
  forall (n : nat) (s : string),
    (String.length s <= n)%nat -> Join (Split s sep) sep = s.
Proof.
  pose proof (nonempty_length _ Hsep) as Hlen.
  induction n as [|n IH]; intros s Hs.
  - rewrite (length_zero s) by lia.
    now rewrite (Split_no_occurrence _ _ (firstOccurrence_in_empty _ Hsep)).
  - destruct (firstOccurrence s sep) as [m|] eqn:Hm.
    + rewrite (Split_occurrence _ _ _ Hsep Hm).
      pose proof (firstOccurrence_split _ _ _ Hm) as [Heq Hle].
      destruct (Split_head (drop (m + String.length sep) s) sep Hsep)
        as [tl Htl].
      rewrite Htl, Join_cons, <- Htl, IH.
      * symmetry; exact Heq.
      * rewrite length_drop. lia.
    + now rewrite (Split_no_occurrence _ _ Hm).
Qed.

(** [strings.Join(strings.Split(s, sep), sep) == s], for every separator. *)
Lemma Join_Split (s sep : string) : Join (Split s sep) sep = s.
Proof.
  destruct sep as [|c sep].
  - apply Join_explodeLoop. lia.
  - apply (Join_Split_nonempty_sep (String c sep) ltac:(discriminate)
             (String.length s)). lia.
Qed.

(** The results documented for [strings.Index] and [strings.Split]. *)
Example Index_chicken :
  Index "chicken" "ken" = 4 /\ Index "chicken" "dmr" = -1.
Proof. split; reflexivity. Qed.

Example Split_documented :
  Split "a,b,c" "," = ["a"; "b"; "c"] /\
  Split "a man a plan a canal panama" "a " =
  [EmptyString; "man "; "plan "; "canal panama"] /\
  Split " xyz " EmptyString = [" "; "x"; "y"; "z"; " "] /\
  Split EmptyString "Bernardo O'Higgins" = [EmptyString] /\
  Split EmptyString EmptyString = [].
Proof. repeat split; reflexivity. Qed.

(** With an empty separator the bytes of a multi-byte rune stay together:
    [0xC3 0xA9] is one rune, a lone [0xA9] is an invalid rune of width 1. *)
Example Split_runes :
  let e1 := ascii_of_N 0xC3 in
  let e2 := ascii_of_N 0xA9 in
  Split (String "a" (String e1 (String e2 (String e2 "b")))) EmptyString =
  ["a"; String e1 (String e2 EmptyString); String e2 EmptyString; "b"].
Proof. reflexivity. Qed.

End SplitFacts.

(** ** Indexing and slicing *)

Module RuntimeFacts.
Import GoRuntime StringFacts.

Lemma at_index_0 {A : Type} (x : A) (l : list A) : at_index (x :: l) 0 = Ok x.
Proof. reflexivity. Qed.

Lemma at_index_1 {A : Type} (x y : A) (l : list A) :
  at_index (x :: y :: l) 1 = Ok y.
Proof.
  unfold at_index.
  replace (1 <? Z.of_nat (List.length (x :: y :: l))) with true; [reflexivity|].
  symmetry; apply Z.ltb_lt. cbn [List.length]. lia.
Qed.

Lemma at_index_1_single {A : Type} (x : A) :
  at_index [x] 1 = Panic IndexOutOfRange.
Proof. reflexivity. Qed.

Lemma slice_in_bounds (s : string) (lo hi : Z) :
  0 <= lo <= hi -> hi <= len s ->
  slice s lo hi = Ok (take (Z.to_nat (hi - lo)) (drop (Z.to_nat lo) s)).
Proof.
  intros [Hlo Hhi] Hlen. unfold slice.
  apply Z.leb_le in Hlo, Hhi, Hlen. now rewrite Hlo, Hhi, Hlen.
Qed.

Lemma slice_out_of_bounds (s : string) (lo hi : Z) :
  lo < 0 \/ hi < lo \/ len s < hi ->
  slice s lo hi = Panic SliceBoundsOutOfRange.
Proof.
  intros Hb. unfold slice.
  destruct (0 <=? lo) eqn:H1; [|reflexivity].
  destruct (lo <=? hi) eqn:H2; [|reflexivity].
  destruct (hi <=? len s) eqn:H3; [|reflexivity].
  apply Z.leb_le in H1, H2, H3. lia.
Qed.

(** [s[0:n]] and [s[n:]] for an offset inside the string. *)
Lemma slice_prefix (s : string) (n : nat) :
  (n <= String.length s)%nat -> slice s 0 (Z.of_nat n) = Ok (take n s).
Proof.
  intros Hn. rewrite slice_in_bounds by (unfold len; lia).
  now rewrite Z.sub_0_r, Nat2Z.id.
Qed.

Lemma sliceFrom_suffix (s : string) (n : nat) :
  (n <= String.length s)%nat -> sliceFrom s (Z.of_nat n) = Ok (drop n s).
Proof.
  intros Hn. unfold sliceFrom. rewrite slice_in_bounds by (unfold len; lia).
  rewrite Nat2Z.id. f_equal. apply take_all.
  rewrite length_drop. unfold len. lia.
Qed.

End RuntimeFacts.

(** ** The properties of package [pair] *)

Module PairSpec.
Import GoRuntime Strings Pair StringFacts SplitFacts RuntimeFacts.

(** *** Construction from a delimited string *)



(** [NewCurrencyPairDelimiter] at the first occurrence of a non-empty
    delimiter: the second currency is the first field of what follows. *)
Lemma NewCurrencyPairDelimiter_occurrence (raw delimiter : string) (m : nat) :
  delimiter <> EmptyString ->
  firstOccurrence raw delimiter = Some m ->
  NewCurrencyPairDelimiter raw delimiter =
  Ok {| Delimiter := delimiter;
        FirstCurrency := take m raw;
        SecondCurrency :=
          firstField (drop (m + String.length delimiter) raw) delimiter |}.
Proof.
  intros Hd Hm. unfold NewCurrencyPairDelimiter.
  rewrite (Split_occurrence _ _ _ Hd Hm).
  destruct (Split_head (drop (m + String.length delimiter) raw) delimiter Hd)
    as [tl ->].
  now rewrite at_index_0, at_index_1.
Qed.

(** A one-byte delimiter that does not occur in [a] first occurs in
    [a ++ delimiter ++ b] right after [a]. *)
Lemma firstOccurrence_byte (c : ascii) (a b : string) :
  firstOccurrence a (String c EmptyString) = None ->
  firstOccurrence (a ++ String c EmptyString ++ b) (String c EmptyString)
  = Some (String.length a).
Proof.
  intros Ha. apply firstOccurrence_app. intros k Hk.
  pose proof (firstOccurrence_None _ _ k Ha) as Hp.
  clear Ha. revert k Hk Hp. induction a as [|x a IH]; intros k Hk Hp.
  - simpl in Hk; lia.
  - destruct k as [|k].
    + simpl in *. destruct (Ascii.eqb c x); [discriminate | reflexivity].
    + simpl. apply IH; [simpl in Hk; lia | exact Hp].
Qed.

(** Counterexample to C2: when the delimiter occurs twice (the second currency
    stops at the second occurrence) and when a delimiter of several bytes
    overlaps the end of the first currency. *)
Lemma NewCurrencyPairDelimiter_remainder_counterexample :
  (Strings.Contains "a_b_c" "_" = true /\
   NewCurrencyPairDelimiter "a_b_c" "_" <>
   Ok {| Delimiter := "_"; FirstCurrency := "a"; SecondCurrency := "b_c" |})
  /\
  (Strings.Contains "a" "aa" = false /\ Strings.Contains "b" "aa" = false /\
   NewCurrencyPairDelimiter ("a" ++ "aa" ++ "b") "aa" <>
   Ok {| Delimiter := "aa"; FirstCurrency := "a"; SecondCurrency := "b" |}).
Proof.
  repeat split; try reflexivity; vm_compute; discriminate.
Qed.

(** C2, amended.  For a non-empty delimiter first occurring at offset [m]
    of the raw string, the first currency is the text before that
    occurrence, the second currency is the text after it up to the next
    occurrence of the delimiter (all of it when there is none), and the
    delimiter is stored as given.  Hence
    [first ++ delimiter ++ second] gives back [first] and [second] when the
    delimiter does not occur in [second] and first occurs right after
    [first], which holds for every one-byte delimiter that occurs in neither
    currency. *)
Theorem NewCurrencyPairDelimiter_first_occurrence :
  (forall (raw delimiter : string) (m : nat),
      delimiter <> EmptyString ->
      Index raw delimiter = Z.of_nat m ->
      let rest := drop (m + String.length delimiter) raw in
      raw = (take m raw ++ delimiter ++ rest)%string /\
      NewCurrencyPairDelimiter raw delimiter =
      Ok {| Delimiter := delimiter;
            FirstCurrency := take m raw;
            SecondCurrency := firstField rest delimiter |} /\
      (Strings.Contains rest delimiter = false ->
       NewCurrencyPairDelimiter raw delimiter =
       Ok {| Delimiter := delimiter;
             FirstCurrency := take m raw;
             SecondCurrency := rest |})) /\
  (forall (first second delimiter : string),
      delimiter <> EmptyString ->
      Strings.Contains second delimiter = false ->
      Index (first ++ delimiter ++ second) delimiter = len first ->
      NewCurrencyPairDelimiter (first ++ delimiter ++ second) delimiter =
      Ok {| Delimiter := delimiter;
            FirstCurrency := first;
            SecondCurrency := second |}) /\
  (forall (first second : string) (c : ascii),
      Strings.Contains first (String c EmptyString) = false ->
      Strings.Contains second (String c EmptyString) = false ->
      NewCurrencyPairDelimiter
        (first ++ String c EmptyString ++ second) (String c EmptyString) =
      Ok {| Delimiter := String c EmptyString;
            FirstCurrency := first;
            SecondCurrency := second |}).
Proof.
  assert (Hround : forall first second delimiter,
             delimiter <> EmptyString ->
             firstOccurrence second delimiter = None ->
             firstOccurrence (first ++ delimiter ++ second) delimiter
             = Some (String.length first) ->
             NewCurrencyPairDelimiter (first ++ delimiter ++ second) delimiter =
             Ok {| Delimiter := delimiter;
                   FirstCurrency := first;
                   SecondCurrency := second |}).
  { intros first second delimiter Hd Hs Hm.
    rewrite (NewCurrencyPairDelimiter_occurrence _ _ _ Hd Hm).
    rewrite take_app_length, drop_add, drop_app_length, drop_app_length.
    unfold firstField. now rewrite Hs. }
  split; [|split].
  - intros raw delimiter m Hd Hi rest.
    assert (Hm : firstOccurrence raw delimiter = Some m).
    { unfold Index in Hi. destruct (firstOccurrence raw delimiter) as [k|];
        [f_equal; lia | lia]. }
    split; [|split].
    + apply (firstOccurrence_split _ _ _ Hm).
    + apply (NewCurrencyPairDelimiter_occurrence _ _ _ Hd Hm).
    + intros Hc. apply Contains_false in Hc.
      rewrite (NewCurrencyPairDelimiter_occurrence _ _ _ Hd Hm).
      fold rest. unfold firstField. now rewrite Hc.
  - intros first second delimiter Hd Hs Hi.
    apply Hround; [assumption | now apply Contains_false |].
    unfold Index, len in Hi.
    destruct (firstOccurrence (first ++ delimiter ++ second) delimiter) as [k|];
      [f_equal; lia | lia].
  - intros first second c Hf Hs.
    apply Contains_false in Hf, Hs.
    apply Hround; [discriminate | assumption |].
    now apply firstOccurrence_byte.
Qed.

Lemma NewCurrencyPairDelimiter_first_occurrence_witness :
  NewCurrencyPairDelimiter "a_b_c" "_" =
  Ok {| Delimiter := "_"; FirstCurrency := "a"; SecondCurrency := "b" |} /\
  NewCurrencyPairDelimiter "aaab" "aa" =
  Ok {| Delimiter := "aa"; FirstCurrency := ""; SecondCurrency := "ab" |} /\
  NewCurrencyPairDelimiter "btc--usd" "--" =
  Ok {| Delimiter := "--"; FirstCurrency := "btc"; SecondCurrency := "usd" |} /\
  NewCurrencyPairDelimiter "BTC-USD" "-" =
  Ok {| Delimiter := "-"; FirstCurrency := "BTC"; SecondCurrency := "USD" |}.
Proof.
  destruct NewCurrencyPairDelimiter_first_occurrence as [Hocc [Hround Hbyte]].
  split; [|split; [|split]].
  - refine (proj1 (proj2 (Hocc "a_b_c" "_" 1%nat _ _)));
      [discriminate | reflexivity].
  - refine (proj1 (proj2 (Hocc "aaab" "aa" 0%nat _ _)));
      [discriminate | reflexivity].
  - refine (Hround "btc" "usd" "--" _ _ _);
      [discriminate | reflexivity | reflexivity].
  - refine (Hbyte "BTC" "USD" "-"%char _ _); reflexivity.
Defined.

(** *** Construction from a string without a given delimiter *)

(** The loop over the two delimiters, unrolled. *)
Lemma NewCurrencyPairFromString_unroll (raw : string) :
  NewCurrencyPairFromString raw =
  (if Strings.Contains raw "_" then NewCurrencyPairDelimiter raw "_"
   else if Strings.Contains raw "-" then NewCurrencyPairDelimiter raw "-"
   else (a <- slice raw 0 3 ;; b <- sliceFrom raw 3 ;;
         Ok (NewCurrencyPair a b))).
Proof.
  unfold NewCurrencyPairFromString. cbn [delimiterLoop].
  destruct (Strings.Contains raw "_"); [reflexivity|].
  destruct (Strings.Contains raw "-"); reflexivity.
Qed.

(** The fixed split after three bytes. *)
Lemma fixed_split (raw : string) :
  3 <= len raw ->
  (a <- slice raw 0 3 ;; b <- sliceFrom raw 3 ;; Ok (NewCurrencyPair a b)) =
  Ok {| Delimiter := EmptyString;
        FirstCurrency := take 3 raw;
        SecondCurrency := drop 3 raw |}.
Proof.
  intros Hlen. unfold len in Hlen.
  change 3 with (Z.of_nat 3).
  rewrite slice_prefix, sliceFrom_suffix by lia. reflexivity.
Qed.

(** Counterexample to C3, second half: a delimited string with an empty
    currency, and a string of just three bytes, give a pair. *)
Lemma NewCurrencyPairFromString_empty_segment_counterexample :
  NewCurrencyPairFromString "_usd" =
  Ok {| Delimiter := "_"; FirstCurrency := EmptyString;
        SecondCurrency := "usd" |} /\
  NewCurrencyPairFromString "BTC" =
  Ok {| Delimiter := EmptyString; FirstCurrency := "BTC";
        SecondCurrency := EmptyString |}.
Proof. split; reflexivity. Qed.

(** C3, amended.  A raw string with no ["_"], no ["-"] and fewer than three
    bytes makes [NewCurrencyPairFromString] fail (the slice [currency[0:3]]
    panics).  An empty currency is not a failure: a raw string of exactly
    three bytes gives the pair with an empty second currency, and a raw
    string that starts with ["_"] gives a pair with an empty first
    currency. *)
Theorem NewCurrencyPairFromString_too_short :
  (forall raw : string,
      Strings.Contains raw "_" = false ->
      Strings.Contains raw "-" = false ->
      len raw < 3 ->
      NewCurrencyPairFromString raw = Panic SliceBoundsOutOfRange) /\
  (forall raw : string,
      Strings.Contains raw "_" = false ->
      Strings.Contains raw "-" = false ->
      len raw = 3 ->
      NewCurrencyPairFromString raw =
      Ok {| Delimiter := EmptyString;
            FirstCurrency := raw;
            SecondCurrency := EmptyString |}) /\
  (forall rest : string,
      NewCurrencyPairFromString ("_" ++ rest) =
      Ok {| Delimiter := "_";
            FirstCurrency := EmptyString;
            SecondCurrency := firstField rest "_" |}).
Proof.
  split; [|split].
  - intros raw H1 H2 Hlen.
    rewrite NewCurrencyPairFromString_unroll, H1, H2.
    rewrite slice_out_of_bounds by lia. reflexivity.
  - intros raw H1 H2 Hlen.
    rewrite NewCurrencyPairFromString_unroll, H1, H2.
    rewrite fixed_split by lia. unfold len in Hlen.
    rewrite take_all by lia.
    replace (drop 3 raw) with EmptyString; [reflexivity|].
    symmetry. apply length_zero. rewrite length_drop. lia.
  - intros rest.
    assert (Hm : firstOccurrence ("_" ++ rest) "_" = Some O) by reflexivity.
    rewrite NewCurrencyPairFromString_unroll.
    replace (Strings.Contains ("_" ++ rest) "_") with true
      by (symmetry; apply Contains_true; eauto).
    assert (Hd : "_" <> EmptyString) by discriminate.
    rewrite (NewCurrencyPairDelimiter_occurrence _ _ _ Hd Hm).
    reflexivity.
Qed.

Lemma NewCurrencyPairFromString_too_short_witness :
  (len "bt" < 3 /\
   NewCurrencyPairFromString "bt" = Panic SliceBoundsOutOfRange) /\
  (len "BTC" = 3 /\
   NewCurrencyPairFromString "BTC" =
   Ok {| Delimiter := EmptyString; FirstCurrency := "BTC";
         SecondCurrency := EmptyString |}).
Proof.
  destruct NewCurrencyPairFromString_too_short as [Hshort [Hthree _]].
  split; (split; [reflexivity|]).
  - refine (Hshort "bt" _ _ _); reflexivity.
  - refine (Hthree "BTC" _ _ _); reflexivity.
Defined.

(** C4.  [NewCurrencyPairFromString] tries ["_"], then ["-"]: with either
    present the result is that of [NewCurrencyPairDelimiter] with it;
    otherwise the pair is [(raw[0:3], raw[3:])] with an empty delimiter,
    which for a raw string of at least three bytes are its first three bytes
    and the rest. *)
Theorem NewCurrencyPairFromString_delimiters (raw : string) :
  (Strings.Contains raw "_" = true ->
   NewCurrencyPairFromString raw = NewCurrencyPairDelimiter raw "_") /\
  (Strings.Contains raw "_" = false -> Strings.Contains raw "-" = true ->
   NewCurrencyPairFromString raw = NewCurrencyPairDelimiter raw "-") /\
  (Strings.Contains raw "_" = false -> Strings.Contains raw "-" = false ->
   NewCurrencyPairFromString raw =
   (a <- slice raw 0 3 ;; b <- sliceFrom raw 3 ;;
    Ok {| Delimiter := EmptyString;
          FirstCurrency := a;
          SecondCurrency := b |}) /\
   (3 <= len raw ->
    NewCurrencyPairFromString raw =
    Ok {| Delimiter := EmptyString;
          FirstCurrency := take 3 raw;
          SecondCurrency := drop 3 raw |})) /\
  NewCurrencyPairFromString "BTCUSD" =
  Ok {| Delimiter := EmptyString; FirstCurrency := "BTC";
        SecondCurrency := "USD" |} /\
  NewCurrencyPairFromString "btc_usd" =
  Ok {| Delimiter := "_"; FirstCurrency := "btc"; SecondCurrency := "usd" |}.
Proof.
  rewrite NewCurrencyPairFromString_unroll.
  split; [|split; [|split; [|split]]].
  - now intros ->.
  - now intros -> ->.
  - intros -> ->. split; [reflexivity|]. apply fixed_split.
  - reflexivity.
  - reflexivity.
Qed.

Lemma NewCurrencyPairFromString_delimiters_witness :
  (Strings.Contains "eth_btc" "_" = true /\
   NewCurrencyPairFromString "eth_btc" = NewCurrencyPairDelimiter "eth_btc" "_")
  /\
  (Strings.Contains "eth-btc_x" "_" = true /\
   NewCurrencyPairFromString "eth-btc_x" =
   NewCurrencyPairDelimiter "eth-btc_x" "_")
  /\
  (Strings.Contains "eth-btc" "-" = true /\
   NewCurrencyPairFromString "eth-btc" = NewCurrencyPairDelimiter "eth-btc" "-")
  /\
  (3 <= len "DOGEUSDT" /\
   NewCurrencyPairFromString "DOGEUSDT" =
   Ok {| Delimiter := EmptyString; FirstCurrency := "DOG";
         SecondCurrency := "EUSDT" |}).
Proof.
  split; [|split; [|split]];
    (split; [try reflexivity; vm_compute; discriminate|]).
  - refine (proj1 (NewCurrencyPairFromString_delimiters "eth_btc") _).
    reflexivity.
  - refine (proj1 (NewCurrencyPairFromString_delimiters "eth-btc_x") _).
    reflexivity.
  - refine (proj1 (proj2 (NewCurrencyPairFromString_delimiters "eth-btc")) _ _);
      reflexivity.
  - assert (H1 : Strings.Contains "DOGEUSDT" "_" = false) by reflexivity.
    assert (H2 : Strings.Contains "DOGEUSDT" "-" = false) by reflexivity.
    assert (H3 : 3 <= len "DOGEUSDT") by (vm_compute; discriminate).
    exact (proj2 (proj1 (proj2 (proj2
             (NewCurrencyPairFromString_delimiters "DOGEUSDT"))) H1 H2) H3).
Defined.

(** *** Construction from an index token *)

Lemma NewCurrencyPairFromIndex_at_start (raw indexToken : string) :
  firstOccurrence raw indexToken = Some O ->
  NewCurrencyPairFromIndex raw indexToken =
  Ok {| Delimiter := EmptyString;
        FirstCurrency := indexToken;
        SecondCurrency := drop (String.length indexToken) raw |}.
Proof.
  intros Hi. unfold NewCurrencyPairFromIndex.
  rewrite (Index_Some _ _ _ Hi). cbn [Z.of_nat Z.eqb].
  pose proof (firstOccurrence_prefix _ _ _ Hi) as Hp. cbn [drop] in Hp.
  pose proof (HasPrefix_length _ _ Hp) as Hlen.
  unfold len at 1 2.
  rewrite slice_prefix, sliceFrom_suffix by assumption.
  assert (Htake : take (String.length indexToken) raw = indexToken).
  { rewrite (HasPrefix_inv _ _ Hp) at 1. apply take_app_length. }
  rewrite Htake. reflexivity.
Qed.

Lemma NewCurrencyPairFromIndex_inside (raw indexToken : string) (i : nat) :
  firstOccurrence raw indexToken = Some (S i) ->
  NewCurrencyPairFromIndex raw indexToken =
  Ok {| Delimiter := EmptyString;
        FirstCurrency := take (S i) raw;
        SecondCurrency := drop (S i) raw |}.
Proof.
  intros Hi. unfold NewCurrencyPairFromIndex.
  rewrite (Index_Some _ _ _ Hi).
  replace (Z.of_nat (S i) =? 0) with false by (symmetry; apply Z.eqb_neq; lia).
  pose proof (firstOccurrence_split _ _ _ Hi) as [_ Hlen].
  rewrite slice_prefix, sliceFrom_suffix by lia. reflexivity.
Qed.

Lemma NewCurrencyPairFromIndex_absent (raw indexToken : string) :
  firstOccurrence raw indexToken = None ->
  NewCurrencyPairFromIndex raw indexToken = Panic SliceBoundsOutOfRange.
Proof.
  intros Hi. unfold NewCurrencyPairFromIndex.
  rewrite (Index_None _ _ Hi). reflexivity.
Qed.

(** C5.  With the index token first occurring at offset [i] of the raw
    string: at [i = 0] the first currency is the token and the second
    currency is what follows it; at [i > 0] the first currency is the text
    before the occurrence and the second currency is the text from the
    occurrence on, which starts with the token. *)
Theorem NewCurrencyPairFromIndex_asymmetric
  (raw indexToken : string) (i : nat) :
  Index raw indexToken = Z.of_nat i ->
  (i = O ->
   raw = (indexToken ++ drop (String.length indexToken) raw)%string /\
   NewCurrencyPairFromIndex raw indexToken =
   Ok {| Delimiter := EmptyString;
         FirstCurrency := indexToken;
         SecondCurrency := drop (String.length indexToken) raw |}) /\
  (i <> O ->
   raw = (take i raw ++ drop i raw)%string /\
   drop i raw =
   (indexToken ++ drop (i + String.length indexToken) raw)%string /\
   NewCurrencyPairFromIndex raw indexToken =
   Ok {| Delimiter := EmptyString;
         FirstCurrency := take i raw;
         SecondCurrency := drop i raw |}).
Proof.
  intros Hidx.
  assert (Hi : firstOccurrence raw indexToken = Some i).
  { unfold Index in Hidx. destruct (firstOccurrence raw indexToken) as [k|];
      [f_equal; lia | lia]. }
  pose proof (firstOccurrence_prefix _ _ _ Hi) as Hp.
  split.
  - intros ->. split.
    + exact (HasPrefix_inv _ _ Hp).
    + now apply NewCurrencyPairFromIndex_at_start.
  - intros Hne. destruct i as [|i]; [congruence|].
    split; [|split].
    + symmetry; apply take_drop.
    + rewrite drop_add. exact (HasPrefix_inv _ _ Hp).
    + now apply NewCurrencyPairFromIndex_inside.
Qed.

Lemma NewCurrencyPairFromIndex_asymmetric_witness :
  (Index "USDBTC" "USD" = 0 /\
   NewCurrencyPairFromIndex "USDBTC" "USD" =
   Ok {| Delimiter := EmptyString; FirstCurrency := "USD";
         SecondCurrency := "BTC" |}) /\
  (Index "BTCUSD" "USD" = 3 /\
   NewCurrencyPairFromIndex "BTCUSD" "USD" =
   Ok {| Delimiter := EmptyString; FirstCurrency := "BTC";
         SecondCurrency := "USD" |}).
Proof.
  split; (split; [reflexivity|]).
  - assert (H : Index "USDBTC" "USD" = Z.of_nat 0) by reflexivity.
    exact (proj2 (proj1 (NewCurrencyPairFromIndex_asymmetric _ _ _ H)
                    eq_refl)).
  - assert (H : Index "BTCUSD" "USD" = Z.of_nat 3) by reflexivity.
    assert (Hne : 3%nat <> O) by discriminate.
    exact (proj2 (proj2 (proj2 (NewCurrencyPairFromIndex_asymmetric _ _ _ H)
                           Hne))).
Defined.

(** C9.  [NewCurrencyPairFromIndex] returns a pair exactly when the index
    token occurs in the raw string.  When it does not, [strings.Index] is
    [-1], the slice [currency[0:-1]] is out of range and the function
    panics: it returns no pair, and its failure is a run-time panic, not an
    error value handed to the caller. *)
Theorem NewCurrencyPairFromIndex_partial (raw indexToken : string) :
  (Strings.Contains raw indexToken = true ->
   exists p, NewCurrencyPairFromIndex raw indexToken = Ok p) /\
  (Strings.Contains raw indexToken = false ->
   Index raw indexToken = -1 /\
   slice raw 0 (-1) = Panic SliceBoundsOutOfRange /\
   NewCurrencyPairFromIndex raw indexToken = Panic SliceBoundsOutOfRange) /\
  ((exists e, NewCurrencyPairFromIndex raw indexToken = Panic e) <->
   Strings.Contains raw indexToken = false).
Proof.
  assert (Hyes : Strings.Contains raw indexToken = true ->
                 exists p, NewCurrencyPairFromIndex raw indexToken = Ok p).
  { intros Hc. apply Contains_true in Hc as [[|i] Hi].
    - rewrite (NewCurrencyPairFromIndex_at_start _ _ Hi). eauto.
    - rewrite (NewCurrencyPairFromIndex_inside _ _ _ Hi). eauto. }
  assert (Hno : Strings.Contains raw indexToken = false ->
                NewCurrencyPairFromIndex raw indexToken
                = Panic SliceBoundsOutOfRange).
  { intros Hc. apply Contains_false in Hc.
    now apply NewCurrencyPairFromIndex_absent. }
  split; [exact Hyes | split].
  - intros Hc. split; [|split].
    + apply Index_None. now apply Contains_false.
    + reflexivity.
    + now apply Hno.
  - split.
    + intros [e He].
      destruct (Strings.Contains raw indexToken) eqn:Hc; [|reflexivity].
      destruct (Hyes eq_refl) as [p Hp]. congruence.
    + intros Hc. exists SliceBoundsOutOfRange. now apply Hno.
Qed.

Lemma NewCurrencyPairFromIndex_partial_witness :
  (Strings.Contains "BTCUSD" "XRP" = false /\
   NewCurrencyPairFromIndex "BTCUSD" "XRP" = Panic SliceBoundsOutOfRange) /\
  (Strings.Contains "BTCUSD" "USD" = true /\
   exists p, NewCurrencyPairFromIndex "BTCUSD" "USD" = Ok p).
Proof.
  split; (split; [reflexivity|]).
  - assert (H : Strings.Contains "BTCUSD" "XRP" = false) by reflexivity.
    exact (proj2 (proj2
             (proj1 (proj2 (NewCurrencyPairFromIndex_partial _ _)) H))).
  - assert (H : Strings.Contains "BTCUSD" "USD" = true) by reflexivity.
    exact (proj1 (NewCurrencyPairFromIndex_partial _ _) H).
Defined.

(** *** Comparison and the operations on slices of pairs *)

Section Comparison.
Context `{CaseMapping}.

(** [Equal] by its two modes. *)
Lemma Equal_exact (c p : CurrencyPair) :
  Equal c p true =
  (Upper (FirstCurrency c) =? Upper (FirstCurrency p))%string &&
  (Upper (SecondCurrency c) =? Upper (SecondCurrency p))%string.
Proof.
  unfold Equal; cbn [negb].
  now destruct (_ && _).
Qed.

Lemma Equal_any_order (c p : CurrencyPair) :
  Equal c p false =
  (Upper (FirstCurrency c) =? Upper (FirstCurrency p))%string &&
  (Upper (SecondCurrency c) =? Upper (SecondCurrency p))%string ||
  (Upper (FirstCurrency c) =? Upper (SecondCurrency p))%string &&
  (Upper (SecondCurrency c) =? Upper (FirstCurrency p))%string.
Proof.
  unfold Equal; cbn [negb].
  now destruct (_ || _).
Qed.

(** C6.  [Equal] is reflexive and symmetric in both modes, a pair equals its
    [Swap] when [exact] is false, and the delimiters of the two pairs do not
    affect the comparison. *)
Theorem Equal_reflexive_symmetric (a b : CurrencyPair) (exact : bool) :
  Equal a a exact = true /\
  Equal a b exact = Equal b a exact /\
  Equal a (Swap a) false = true /\
  (forall d1 d2 : string,
      Equal {| Delimiter := d1;
               FirstCurrency := FirstCurrency a;
               SecondCurrency := SecondCurrency a |}
            {| Delimiter := d2;
               FirstCurrency := FirstCurrency b;
               SecondCurrency := SecondCurrency b |} exact
      = Equal a b exact).
Proof.
  split; [|split; [|split]].
  - destruct exact.
    + now rewrite Equal_exact, !String.eqb_refl.
    + now rewrite Equal_any_order, !String.eqb_refl.
  - destruct exact.
    + rewrite !Equal_exact.
      now rewrite (String.eqb_sym (Upper (FirstCurrency a))),
                  (String.eqb_sym (Upper (SecondCurrency a))).
    + rewrite !Equal_any_order.
      rewrite (String.eqb_sym (Upper (FirstCurrency a))
                              (Upper (FirstCurrency b))),
              (String.eqb_sym (Upper (SecondCurrency a))
                              (Upper (SecondCurrency b))),
              (String.eqb_sym (Upper (FirstCurrency a))
                              (Upper (SecondCurrency b))),
              (String.eqb_sym (Upper (SecondCurrency a))
                              (Upper (FirstCurrency b))).
      f_equal. apply andb_comm.
  - rewrite Equal_any_order. cbn [Swap FirstCurrency SecondCurrency].
    rewrite !String.eqb_refl. apply orb_true_r.
  - intros d1 d2. destruct exact.
    + now rewrite !Equal_exact.
    + now rewrite !Equal_any_order.
Qed.

(** C10.  What [Equal] accepts with [exact] true it accepts with [exact]
    false. *)
Theorem Equal_exact_implies_any_order (a b : CurrencyPair) :
  Equal a b true = true -> Equal a b false = true.
Proof.
  rewrite Equal_exact, Equal_any_order. intros ->. reflexivity.
Qed.

(** C7.  [CopyPairFormat] returns the first element of the slice that
    [Equal] accepts against the target; when it accepts none, the result is
    the zero value [CurrencyPair{}], and there is no failure. *)
Theorem CopyPairFormat_first_match
  (p : CurrencyPair) (pairs : list CurrencyPair) (exact : bool) :
  (forall (before after : list CurrencyPair) (x : CurrencyPair),
      pairs = (before ++ x :: after)%list ->
      (forall y, In y before -> Equal p y exact = false) ->
      Equal p x exact = true ->
      CopyPairFormat p pairs exact = x) /\
  ((forall y, In y pairs -> Equal p y exact = false) ->
   CopyPairFormat p pairs exact = zeroPair /\
   Delimiter (CopyPairFormat p pairs exact) = EmptyString /\
   FirstCurrency (CopyPairFormat p pairs exact) = EmptyString /\
   SecondCurrency (CopyPairFormat p pairs exact) = EmptyString).
Proof.
  split.
  - intros before after x -> Hbefore Hx.
    induction before as [|y before IH]; cbn [app CopyPairFormat].
    + now rewrite Hx.
    + rewrite (Hbefore y) by (left; reflexivity).
      apply IH. intros z Hz. apply Hbefore. now right.
  - intros Hnone.
    assert (Hz : CopyPairFormat p pairs exact = zeroPair).
    { induction pairs as [|y pairs IH]; cbn [CopyPairFormat]; [reflexivity|].
      rewrite (Hnone y) by (left; reflexivity).
      apply IH. intros z Hz. apply Hnone. now right. }
    rewrite Hz. repeat split.
Qed.

(** The slice that the loop of [RemovePairsByFilter] has built. *)
Lemma removeLoop_filter (p pairs : list CurrencyPair) (code : string) :
  removeLoop p code pairs =
  (pairs ++ List.filter (fun x => negb (ContainsCurrency x code)) p)%list.
Proof.
  revert pairs; induction p as [|x p IH]; intros pairs;
    cbn [removeLoop List.filter].
  - now rewrite app_nil_r.
  - destruct (ContainsCurrency x code); cbn [negb].
    + apply IH.
    + rewrite IH, <- List.app_assoc. reflexivity.
Qed.

(** C8.  [RemovePairsByFilter] keeps, in their order, exactly the elements
    for which [ContainsCurrency] is false; the result is no longer than the
    input. *)
Theorem RemovePairsByFilter_filter
  (pairs : list CurrencyPair) (code : string) :
  RemovePairsByFilter pairs code =
  List.filter (fun x => negb (ContainsCurrency x code)) pairs /\
  (forall x, In x (RemovePairsByFilter pairs code) <->
             In x pairs /\ ContainsCurrency x code = false) /\
  (List.length (RemovePairsByFilter pairs code) <= List.length pairs)%nat.
Proof.
  assert (Heq : RemovePairsByFilter pairs code =
                List.filter (fun x => negb (ContainsCurrency x code)) pairs).
  { unfold RemovePairsByFilter. now rewrite removeLoop_filter. }
  rewrite Heq. split; [reflexivity | split].
  - intros x. rewrite List.filter_In, negb_true_iff. reflexivity.
  - apply List.filter_length_le.
Qed.

End Comparison.

Lemma Equal_exact_implies_any_order_witness :
  @Equal asciiCase (NewCurrencyPair "btc" "usd")
         {| Delimiter := "-"; FirstCurrency := "BTC";
            SecondCurrency := "USD" |} true = true /\
  @Equal asciiCase (NewCurrencyPair "btc" "usd")
         {| Delimiter := "-"; FirstCurrency := "BTC";
            SecondCurrency := "USD" |} false = true.
Proof.
  split; [reflexivity|].
  apply (@Equal_exact_implies_any_order asciiCase). reflexivity.
Defined.

Lemma CopyPairFormat_first_match_witness :
  @CopyPairFormat asciiCase (NewCurrencyPair "usd" "btc")
    [ {| Delimiter := "_"; FirstCurrency := "ETH"; SecondCurrency := "USD" |};
      {| Delimiter := "-"; FirstCurrency := "BTC"; SecondCurrency := "USD" |};
      {| Delimiter := "/"; FirstCurrency := "USD"; SecondCurrency := "BTC" |} ]
    false
  = {| Delimiter := "-"; FirstCurrency := "BTC"; SecondCurrency := "USD" |} /\
  @CopyPairFormat asciiCase (NewCurrencyPair "usd" "btc")
    [ {| Delimiter := "_"; FirstCurrency := "ETH"; SecondCurrency := "USD" |};
      {| Delimiter := "-"; FirstCurrency := "BTC"; SecondCurrency := "USD" |} ]
    true
  = zeroPair.
Proof.
  split.
  - apply (proj1 (@CopyPairFormat_first_match asciiCase
                    (NewCurrencyPair "usd" "btc") _ false)
             [ {| Delimiter := "_"; FirstCurrency := "ETH";
                  SecondCurrency := "USD" |} ]
             [ {| Delimiter := "/"; FirstCurrency := "USD";
                  SecondCurrency := "BTC" |} ]).
    + reflexivity.
    + intros y [<- | []]. reflexivity.
    + reflexivity.
  - apply (@CopyPairFormat_first_match asciiCase
             (NewCurrencyPair "usd" "btc") _ true).
    intros y [<- | [<- | []]]; reflexivity.
Defined.

Lemma RemovePairsByFilter_filter_witness :
  @RemovePairsByFilter asciiCase
    [ {| Delimiter := "_"; FirstCurrency := "BTC"; SecondCurrency := "USD" |};
      {| Delimiter := "_"; FirstCurrency := "ETH"; SecondCurrency := "USD" |};
      {| Delimiter := "_"; FirstCurrency := "LTC"; SecondCurrency := "BTC" |};
      {| Delimiter := "_"; FirstCurrency := "XRP"; SecondCurrency := "EUR" |} ]
    "btc"
  = [ {| Delimiter := "_"; FirstCurrency := "ETH"; SecondCurrency := "USD" |};
      {| Delimiter := "_"; FirstCurrency := "XRP"; SecondCurrency := "EUR" |} ].
Proof.
  rewrite (proj1 (@RemovePairsByFilter_filter asciiCase _ "btc")).
  reflexivity.
Defined.

End PairSpec.

(** ** Further properties: comparison, membership and filtering *)

Module PairLaws.
Import GoRuntime Strings Pair StringFacts SplitFacts RuntimeFacts PairSpec.

Section ComparisonLaws.
Context `{CaseMapping}.

(** What [Equal] decides, as propositions. *)
Lemma Equal_true_exact (a b : CurrencyPair) :
  Equal a b true = true <->
  Upper (FirstCurrency a) = Upper (FirstCurrency b) /\
  Upper (SecondCurrency a) = Upper (SecondCurrency b).
Proof.
  rewrite Equal_exact, andb_true_iff, !String.eqb_eq. reflexivity.
Qed.

Lemma Equal_true_any_order (a b : CurrencyPair) :
  Equal a b false = true <->
  (Upper (FirstCurrency a) = Upper (FirstCurrency b) /\
   Upper (SecondCurrency a) = Upper (SecondCurrency b)) \/
  (Upper (FirstCurrency a) = Upper (SecondCurrency b) /\
   Upper (SecondCurrency a) = Upper (FirstCurrency b)).
Proof.
  rewrite Equal_any_order, orb_true_iff, !andb_true_iff, !String.eqb_eq.
  reflexivity.
Qed.

Lemma Equal_weaken (a b : CurrencyPair) (exact : bool) :
  Equal a b exact = true -> Equal a b false = true.
Proof.
  destruct exact; [|trivial].
  rewrite Equal_true_exact, Equal_true_any_order. tauto.
Qed.

Lemma Equal_sym (a b : CurrencyPair) (exact : bool) :
  Equal a b exact = Equal b a exact.
Proof.
  apply eq_true_iff_eq. destruct exact.
  - rewrite !Equal_true_exact. intuition congruence.
  - rewrite !Equal_true_any_order. intuition congruence.
Qed.

Lemma Equal_Swap_r (a b : CurrencyPair) :
  Equal a (Swap b) false = Equal a b false.
Proof.
  apply eq_true_iff_eq. rewrite !Equal_true_any_order.
  cbn [Swap FirstCurrency SecondCurrency]. tauto.
Qed.

(** X1.  [Swap] undoes itself and keeps the delimiter; the string of the
    swapped pair is the second currency, the delimiter, the first
    currency. *)
Theorem Swap_involutive (c : CurrencyPair) :
  Swap (Swap c) = c /\
  Delimiter (Swap c) = Delimiter c /\
  Pair (Swap c) = (SecondCurrency c ++ Delimiter c ++ FirstCurrency c)%string.
Proof. destruct c; repeat split. Qed.

(** X2.  [Equal] is transitive in both modes. *)
Theorem Equal_transitive (a b c : CurrencyPair) (exact : bool) :
  Equal a b exact = true -> Equal b c exact = true ->
  Equal a c exact = true.
Proof.
  destruct exact.
  - rewrite !Equal_true_exact. intuition congruence.
  - rewrite !Equal_true_any_order. intuition congruence.
Qed.

(** X3.  Swapping both pairs never changes the outcome of [Equal]; with
    [exact] false swapping either one does not change it; with [exact] true
    a pair equals its own swap only when its two currencies agree up to
    case. *)
Theorem Equal_Swap (a b : CurrencyPair) (exact : bool) :
  Equal (Swap a) (Swap b) exact = Equal a b exact /\
  Equal a (Swap b) false = Equal a b false /\
  Equal (Swap a) b false = Equal a b false /\
  Equal a (Swap a) true =
  (Upper (FirstCurrency a) =? Upper (SecondCurrency a))%string.
Proof.
  split; [|split; [|split]].
  - apply eq_true_iff_eq. destruct exact.
    + rewrite !Equal_true_exact. cbn [Swap FirstCurrency SecondCurrency].
      tauto.
    + rewrite !Equal_true_any_order. cbn [Swap FirstCurrency SecondCurrency].
      tauto.
  - apply Equal_Swap_r.
  - now rewrite Equal_sym, Equal_Swap_r, Equal_sym.
  - rewrite Equal_exact. cbn [Swap FirstCurrency SecondCurrency].
    rewrite (String.eqb_sym (Upper (SecondCurrency a))). apply andb_diag.
Qed.

(** The loop of [Contains] finds an element that [Equal] accepts. *)
Lemma Contains_true_iff (pairs : list CurrencyPair) (p : CurrencyPair)
  (exact : bool) :
  Pair.Contains pairs p exact = true <->
  exists x, In x pairs /\ Equal x p exact = true.
Proof.
  induction pairs as [|y pairs IH]; cbn [Pair.Contains].
  - split; [discriminate | intros [x [[] _]]].
  - destruct (Equal y p exact) eqn:Hy.
    + split; [|reflexivity]. intros _. exists y. split; [now left | exact Hy].
    + rewrite IH. split.
      * intros [x [Hx He]]. exists x. split; [now right | exact He].
      * intros [x [[<- | Hx] He]]; [congruence | eauto].
Qed.

(** X4.  [Contains] is true exactly when some element of the slice is
    [Equal] to the pair in the given mode; so it is false on the empty slice
    and on a concatenation it is the disjunction over the two parts. *)
Theorem Contains_some_element (pairs more : list CurrencyPair)
  (p : CurrencyPair) (exact : bool) :
  (Pair.Contains pairs p exact = true <->
   exists x, In x pairs /\ Equal x p exact = true) /\
  Pair.Contains [] p exact = false /\
  Pair.Contains (pairs ++ more) p exact =
  Pair.Contains pairs p exact || Pair.Contains more p exact.
Proof.
  split; [apply Contains_true_iff | split; [reflexivity|]].
  induction pairs as [|y pairs IH]; cbn [app Pair.Contains]; [reflexivity|].
  now destruct (Equal y p exact).
Qed.

(** X5.  A pair found with [exact] true is found with [exact] false, and
    with [exact] false a pair is found exactly when its swap is. *)
Theorem Contains_modes (pairs : list CurrencyPair) (p : CurrencyPair) :
  (Pair.Contains pairs p true = true -> Pair.Contains pairs p false = true) /\
  Pair.Contains pairs (Swap p) false = Pair.Contains pairs p false.
Proof.
  split.
  - rewrite !Contains_true_iff. intros [x [Hx He]].
    exists x. split; [exact Hx | exact (Equal_weaken _ _ _ He)].
  - induction pairs as [|y pairs IH]; cbn [Pair.Contains]; [reflexivity|].
    now rewrite Equal_Swap_r, IH.
Qed.

End ComparisonLaws.

Lemma Contains_modes_witness :
  @Pair.Contains asciiCase
    [ {| Delimiter := "_"; FirstCurrency := "ETH"; SecondCurrency := "USD" |};
      {| Delimiter := "-"; FirstCurrency := "BTC"; SecondCurrency := "USD" |} ]
    (NewCurrencyPair "btc" "usd") true = true /\
  @Pair.Contains asciiCase
    [ {| Delimiter := "_"; FirstCurrency := "ETH"; SecondCurrency := "USD" |};
      {| Delimiter := "-"; FirstCurrency := "BTC"; SecondCurrency := "USD" |} ]
    (NewCurrencyPair "btc" "usd") false = true.
Proof.
  split; [reflexivity|].
  apply (proj1 (@Contains_modes asciiCase _ _)). reflexivity.
Defined.

Lemma Equal_transitive_witness :
  @Equal asciiCase (NewCurrencyPair "btc" "usd")
         (NewCurrencyPair "USD" "BTC") false = true /\
  @Equal asciiCase (NewCurrencyPair "USD" "BTC")
         (NewCurrencyPair "Btc" "Usd") false = true /\
  @Equal asciiCase (NewCurrencyPair "btc" "usd")
         (NewCurrencyPair "Btc" "Usd") false = true.
Proof.
  split; [reflexivity | split; [reflexivity|]].
  apply (@Equal_transitive asciiCase _ (NewCurrencyPair "USD" "BTC"));
    reflexivity.
Defined.

Lemma Contains_some_element_witness :
  @Pair.Contains asciiCase
    [NewCurrencyPair "ETH" "USD"; NewCurrencyPair "BTC" "USD"]
    (NewCurrencyPair "usd" "btc") false = true.
Proof.
  apply (proj1 (@Contains_some_element asciiCase _ [] _ _)).
  exists (NewCurrencyPair "BTC" "USD").
  split; [right; left; reflexivity | reflexivity].
Defined.

Section MembershipLaws.
Context `{CaseMapping}.

(** X6.  [CopyPairFormat] and [Contains] agree: when [Contains] finds the
    pair, [CopyPairFormat] returns an element of the slice that is [Equal]
    to it; when it does not, [CopyPairFormat] returns the zero value. *)
Theorem CopyPairFormat_Contains (p : CurrencyPair)
  (pairs : list CurrencyPair) (exact : bool) :
  (Pair.Contains pairs p exact = true ->
   In (CopyPairFormat p pairs exact) pairs /\
   Equal p (CopyPairFormat p pairs exact) exact = true) /\
  (Pair.Contains pairs p exact = false ->
   CopyPairFormat p pairs exact = zeroPair).
Proof.
  induction pairs as [|y pairs [IHt IHf]];
    cbn [Pair.Contains CopyPairFormat].
  - split; [discriminate | reflexivity].
  - rewrite (Equal_sym y p). destruct (Equal p y exact) eqn:Hy.
    + split; [|discriminate]. intros _. split; [now left | exact Hy].
    + split.
      * intros Hc. destruct (IHt Hc) as [Hin He]. split; [now right | exact He].
      * exact IHf.
Qed.

(** X7.  [ContainsCurrency] does not tell apart pairs that [Equal] accepts
    (in either mode), nor a pair and its swap. *)
Theorem ContainsCurrency_Equal (a b : CurrencyPair) (exact : bool)
  (c : string) :
  (Equal a b exact = true -> ContainsCurrency a c = ContainsCurrency b c) /\
  ContainsCurrency (Swap a) c = ContainsCurrency a c.
Proof.
  split.
  - intros He. apply Equal_weaken, Equal_true_any_order in He.
    unfold ContainsCurrency.
    destruct He as [[-> ->] | [-> ->]]; [reflexivity | apply orb_comm].
  - unfold ContainsCurrency. cbn [Swap FirstCurrency SecondCurrency].
    apply orb_comm.
Qed.

(** [RemovePairsByFilter] as a filter. *)
Lemma RemovePairsByFilter_keep (pairs : list CurrencyPair) (code : string) :
  RemovePairsByFilter pairs code =
  List.filter (fun x => negb (ContainsCurrency x code)) pairs.
Proof. unfold RemovePairsByFilter. now rewrite removeLoop_filter. Qed.

Lemma filter_twice {A : Type} (f g : A -> bool) (l : list A) :
  List.filter f (List.filter g l) = List.filter (fun x => g x && f x) l.
Proof.
  induction l as [|x l IH]; cbn [List.filter]; [reflexivity|].
  destruct (g x); cbn [List.filter andb]; [|exact IH].
  destruct (f x); now rewrite IH.
Qed.

(** X8.  Removing by the same code twice is removing once, removing by two
    codes gives the same slice in either order, and removing from a
    concatenation is removing from each part. *)
Theorem RemovePairsByFilter_idempotent (pairs more : list CurrencyPair)
  (code other : string) :
  RemovePairsByFilter (RemovePairsByFilter pairs code) code =
  RemovePairsByFilter pairs code /\
  RemovePairsByFilter (RemovePairsByFilter pairs code) other =
  RemovePairsByFilter (RemovePairsByFilter pairs other) code /\
  RemovePairsByFilter (pairs ++ more) code =
  (RemovePairsByFilter pairs code ++ RemovePairsByFilter more code)%list.
Proof.
  rewrite !RemovePairsByFilter_keep, !filter_twice.
  split; [|split].
  - apply List.filter_ext. intros x. apply andb_diag.
  - apply List.filter_ext. intros x. apply andb_comm.
  - apply List.filter_app.
Qed.

(** X9.  After [RemovePairsByFilter] by a code, [Contains] finds no pair
    that has that currency, in either mode. *)
Theorem RemovePairsByFilter_Contains (pairs : list CurrencyPair)
  (p : CurrencyPair) (code : string) (exact : bool) :
  ContainsCurrency p code = true ->
  Pair.Contains (RemovePairsByFilter pairs code) p exact = false.
Proof.
  intros Hp. apply not_true_is_false. intros Hc.
  apply Contains_true_iff in Hc as [x [Hx He]].
  rewrite RemovePairsByFilter_keep in Hx.
  apply List.filter_In in Hx as [_ Hx]. apply negb_true_iff in Hx.
  apply Equal_weaken, Equal_true_any_order in He.
  unfold ContainsCurrency in Hp, Hx.
  destruct He as [[H1 H2] | [H1 H2]]; rewrite H1, H2 in Hx.
  - congruence.
  - rewrite orb_comm in Hx. congruence.
Qed.

End MembershipLaws.

Lemma CopyPairFormat_Contains_witness :
  In (@CopyPairFormat asciiCase (NewCurrencyPair "usd" "btc")
        [ {| Delimiter := "_"; FirstCurrency := "ETH";
             SecondCurrency := "USD" |};
          {| Delimiter := "-"; FirstCurrency := "BTC";
             SecondCurrency := "USD" |} ] false)
     [ {| Delimiter := "_"; FirstCurrency := "ETH"; SecondCurrency := "USD" |};
       {| Delimiter := "-"; FirstCurrency := "BTC"; SecondCurrency := "USD" |} ]
  /\
  @CopyPairFormat asciiCase (NewCurrencyPair "usd" "btc")
    [ {| Delimiter := "_"; FirstCurrency := "ETH"; SecondCurrency := "USD" |} ]
    false = zeroPair.
Proof.
  split.
  - apply (proj1 (@CopyPairFormat_Contains asciiCase _ _ false)).
    reflexivity.
  - apply (proj2 (@CopyPairFormat_Contains asciiCase _ _ false)).
    reflexivity.
Defined.

Lemma ContainsCurrency_Equal_witness :
  @ContainsCurrency asciiCase (NewCurrencyPair "btc" "usd") "USD" =
  @ContainsCurrency asciiCase
    {| Delimiter := "-"; FirstCurrency := "Usd"; SecondCurrency := "Btc" |}
    "USD".
Proof.
  apply (proj1 (@ContainsCurrency_Equal asciiCase _ _ false "USD")).
  reflexivity.
Defined.

Lemma RemovePairsByFilter_Contains_witness :
  @Pair.Contains asciiCase
    (@RemovePairsByFilter asciiCase
       [NewCurrencyPair "BTC" "USD"; NewCurrencyPair "ETH" "EUR";
        NewCurrencyPair "usd" "btc"] "usd")
    (NewCurrencyPair "btc" "usd") false = false.
Proof.
  apply (@RemovePairsByFilter_Contains asciiCase). reflexivity.
Defined.

(** ** Further properties: the constructors and [Pair] *)

Lemma HasPrefix_take (n : nat) (t sep : string) :
  HasPrefix (take n t) sep = true -> HasPrefix t sep = true.
Proof.
  revert n t; induction sep as [|c sep IH]; intros n t; [reflexivity|].
  destruct n as [|n], t as [|d t]; cbn [take HasPrefix]; try discriminate.
  intros Hp. apply andb_true_iff in Hp as [-> Hp].
  cbn [andb]. exact (IH _ _ Hp).
Qed.

Lemma HasPrefix_refl (t : string) : HasPrefix t t = true.
Proof.
  induction t as [|c t IH]; cbn [HasPrefix]; [reflexivity|].
  now rewrite Ascii.eqb_refl, IH.
Qed.

Lemma HasPrefix_of_take (n : nat) (t : string) : HasPrefix t (take n t) = true.
Proof.
  revert t; induction n as [|n IH]; intros [|c t]; cbn [take HasPrefix];
    try reflexivity.
  now rewrite Ascii.eqb_refl, IH.
Qed.

Lemma HasPrefix_app_cancel (a b b' : string) :
  HasPrefix (a ++ b) (a ++ b') = HasPrefix b b'.
Proof.
  induction a as [|c a IH]; cbn [String.append HasPrefix]; [reflexivity|].
  now rewrite Ascii.eqb_refl, IH.
Qed.

(** A non-empty separator does not occur before its first occurrence. *)
Lemma firstOccurrence_take (sep : string) (Hsep : sep <> EmptyString) :
  forall (s : string) (m : nat),
    firstOccurrence s sep = Some m -> firstOccurrence (take m s) sep = None.
Proof.
  induction s as [|c s IH]; intros m; rewrite firstOccurrence_unfold.
  - destruct (HasPrefix EmptyString sep); [|discriminate].
    intros [= <-]. now apply firstOccurrence_in_empty.
  - destruct (HasPrefix (String c s) sep) eqn:Hp.
    + intros [= <-]. now apply firstOccurrence_in_empty.
    + destruct (firstOccurrence s sep) as [j|] eqn:Hj; [|discriminate].
      intros [= <-]. cbn [take]. rewrite firstOccurrence_unfold.
      destruct (HasPrefix (String c (take j s)) sep) eqn:Hq.
      * change (String c (take j s)) with (take (S j) (String c s)) in Hq.
        apply HasPrefix_take in Hq. congruence.
      * now rewrite (IH j eq_refl).
Qed.

(** The first field of a string holds no separator. *)
Lemma firstField_free (s sep : string) :
  sep <> EmptyString -> firstOccurrence (firstField s sep) sep = None.
Proof.
  intros Hsep. unfold firstField.
  destruct (firstOccurrence s sep) as [k|] eqn:Hk; [|exact Hk].
  now apply firstOccurrence_take.
Qed.

Lemma HasPrefix_firstField (s sep : string) :
  HasPrefix s (firstField s sep) = true.
Proof.
  unfold firstField. destruct (firstOccurrence s sep);
    [apply HasPrefix_of_take | apply HasPrefix_refl].
Qed.

(** A byte that occurs in neither of two strings does not occur in their
    concatenation. *)
Lemma firstOccurrence_byte_app (c : ascii) (a b : string) :
  firstOccurrence a (String c EmptyString) = None ->
  firstOccurrence b (String c EmptyString) = None ->
  firstOccurrence (a ++ b) (String c EmptyString) = None.
Proof.
  intros Ha Hb. induction a as [|x a IH]; cbn [String.append]; [exact Hb|].
  rewrite firstOccurrence_unfold in Ha. rewrite firstOccurrence_unfold.
  cbn [HasPrefix] in *.
  destruct (Ascii.eqb c x); cbn [andb] in *; [discriminate|].
  destruct (firstOccurrence a (String c EmptyString)); [discriminate|].
  now rewrite IH.
Qed.

(** The two currencies around a one-byte delimiter that occurs in neither
    are read back. *)
Lemma byte_delimiter_round_trip (first second : string) (c : ascii) :
  firstOccurrence first (String c EmptyString) = None ->
  firstOccurrence second (String c EmptyString) = None ->
  NewCurrencyPairDelimiter
    (first ++ String c EmptyString ++ second) (String c EmptyString) =
  Ok {| Delimiter := String c EmptyString;
        FirstCurrency := first;
        SecondCurrency := second |}.
Proof.
  intros Hf Hs.
  assert (Hd : String c EmptyString <> EmptyString) by discriminate.
  rewrite (NewCurrencyPairDelimiter_occurrence _ _ _ Hd
             (firstOccurrence_byte c first second Hf)).
  rewrite take_app_length, drop_add, drop_app_length.
  cbn [String.length drop String.append].
  unfold firstField. now rewrite Hs.
Qed.

(** X10.  A pair returned by [NewCurrencyPairFromIndex] has an empty
    delimiter and loses nothing: its string is the raw string. *)
Theorem NewCurrencyPairFromIndex_lossless (raw indexToken : string)
  (p : CurrencyPair) :
  NewCurrencyPairFromIndex raw indexToken = Ok p ->
  Delimiter p = EmptyString /\ Pair p = raw.
Proof.
  destruct (firstOccurrence raw indexToken) as [[|i]|] eqn:Hi.
  - rewrite (NewCurrencyPairFromIndex_at_start _ _ Hi). intros [= <-].
    split; [reflexivity|].
    change (Pair _)
      with (indexToken ++ drop (String.length indexToken) raw)%string.
    symmetry. apply HasPrefix_inv.
    exact (firstOccurrence_prefix _ _ _ Hi).
  - rewrite (NewCurrencyPairFromIndex_inside _ _ _ Hi). intros [= <-].
    split; [reflexivity|].
    change (Pair _) with (take (S i) raw ++ drop (S i) raw)%string.
    apply take_drop.
  - rewrite (NewCurrencyPairFromIndex_absent _ _ Hi). discriminate.
Qed.

Lemma NewCurrencyPairFromIndex_lossless_witness :
  Pair {| Delimiter := EmptyString; FirstCurrency := "DOGE";
          SecondCurrency := "USDT" |} = "DOGEUSDT".
Proof.
  apply (NewCurrencyPairFromIndex_lossless "DOGEUSDT" "USD"). reflexivity.
Defined.

(** X11.  [NewCurrencyPairFromIndex] reads a pair back from its string:
    with the first currency as index token always, and with the second
    currency as index token when the first currency is not empty and the
    second does not occur earlier in the string. *)
Theorem NewCurrencyPairFromIndex_round_trip :
  (forall first second : string,
      NewCurrencyPairFromIndex (Pair (NewCurrencyPair first second)) first =
      Ok (NewCurrencyPair first second)) /\
  (forall first second : string,
      first <> EmptyString ->
      Index (Pair (NewCurrencyPair first second)) second = len first ->
      NewCurrencyPairFromIndex (Pair (NewCurrencyPair first second)) second =
      Ok (NewCurrencyPair first second)).
Proof.
  assert (Hpair : forall a b, Pair (NewCurrencyPair a b) = (a ++ b)%string)
    by reflexivity.
  split; intros first second.
  - rewrite Hpair.
    assert (Hi : firstOccurrence (first ++ second) first = Some O).
    { rewrite firstOccurrence_unfold. now rewrite HasPrefix_app. }
    rewrite (NewCurrencyPairFromIndex_at_start _ _ Hi).
    now rewrite drop_app_length.
  - rewrite Hpair. intros Hne Hidx.
    assert (Hi : firstOccurrence (first ++ second) second
                 = Some (String.length first)).
    { unfold Index, len in Hidx.
      destruct (firstOccurrence (first ++ second) second) as [k|];
        [f_equal; lia | lia]. }
    destruct first as [|c first]; [congruence|].
    cbn [String.length] in Hi.
    rewrite (NewCurrencyPairFromIndex_inside _ _ _ Hi).
    change (S (String.length first)) with (String.length (String c first)).
    now rewrite take_app_length, drop_app_length.
Qed.

Lemma NewCurrencyPairFromIndex_round_trip_witness :
  NewCurrencyPairFromIndex (Pair (NewCurrencyPair "BTC" "USDT")) "USDT" =
  Ok (NewCurrencyPair "BTC" "USDT").
Proof.
  apply (proj2 NewCurrencyPairFromIndex_round_trip "BTC" "USDT");
    [discriminate | reflexivity].
Defined.

(** What [NewCurrencyPairDelimiter] returns for a non-empty delimiter. *)
Lemma NewCurrencyPairDelimiter_shape (raw delimiter : string)
  (p : CurrencyPair) :
  delimiter <> EmptyString ->
  NewCurrencyPairDelimiter raw delimiter = Ok p ->
  Delimiter p = delimiter /\
  Strings.Contains (FirstCurrency p) delimiter = false /\
  Strings.Contains (SecondCurrency p) delimiter = false /\
  HasPrefix raw (Pair p) = true.
Proof.
  intros Hd. destruct (firstOccurrence raw delimiter) as [m|] eqn:Hm.
  - rewrite (NewCurrencyPairDelimiter_occurrence _ _ _ Hd Hm).
    intros [= <-]. cbn [Delimiter FirstCurrency SecondCurrency].
    split; [reflexivity | split; [|split]].
    + apply Contains_false. now apply firstOccurrence_take.
    + apply Contains_false. now apply firstField_free.
    + unfold Pair. cbn [Delimiter FirstCurrency SecondCurrency].
      rewrite (proj1 (firstOccurrence_split _ _ _ Hm)) at 1.
      rewrite !HasPrefix_app_cancel. apply HasPrefix_firstField.
  - unfold NewCurrencyPairDelimiter.
    rewrite (Split_no_occurrence _ _ Hm). discriminate.
Qed.

(** X12.  A pair returned by [NewCurrencyPairDelimiter] for a non-empty
    delimiter stores that delimiter, has no occurrence of it in either
    currency, and its string is a prefix of the raw string. *)
Theorem NewCurrencyPairDelimiter_currencies_free (raw delimiter : string)
  (p : CurrencyPair) :
  delimiter <> EmptyString ->
  NewCurrencyPairDelimiter raw delimiter = Ok p ->
  Delimiter p = delimiter /\
  Strings.Contains (FirstCurrency p) delimiter = false /\
  Strings.Contains (SecondCurrency p) delimiter = false /\
  HasPrefix raw (Pair p) = true.
Proof. apply NewCurrencyPairDelimiter_shape. Qed.

Lemma NewCurrencyPairDelimiter_currencies_free_witness :
  Strings.Contains "USD" "_" = false /\
  HasPrefix "BTC_USD_190927"
    (Pair {| Delimiter := "_"; FirstCurrency := "BTC";
             SecondCurrency := "USD" |}) = true.
Proof.
  assert (Hd : "_" <> EmptyString) by discriminate.
  assert (Hp : NewCurrencyPairDelimiter "BTC_USD_190927" "_" =
               Ok {| Delimiter := "_"; FirstCurrency := "BTC";
                     SecondCurrency := "USD" |}) by reflexivity.
  pose proof (NewCurrencyPairDelimiter_currencies_free _ _ _ Hd Hp)
    as [_ [_ [H2 H3]]].
  split; [exact H2 | exact H3].
Defined.

(** [NewCurrencyPairDelimiter] returns a pair when the non-empty delimiter
    occurs. *)
Lemma NewCurrencyPairDelimiter_returns (raw delimiter : string) :
  delimiter <> EmptyString -> Strings.Contains raw delimiter = true ->
  exists p, NewCurrencyPairDelimiter raw delimiter = Ok p.
Proof.
  intros Hd Hc. apply Contains_true in Hc as [m Hm].
  rewrite (NewCurrencyPairDelimiter_occurrence _ _ _ Hd Hm). eauto.
Qed.

(** X13.  [NewCurrencyPairFromString] returns a pair exactly when the raw
    string holds ["_"] or ["-"] or has at least three bytes; otherwise it
    panics on [currency[0:3]]. *)
Theorem NewCurrencyPairFromString_returns (raw : string) :
  ((exists p, NewCurrencyPairFromString raw = Ok p) <->
   Strings.Contains raw "_" = true \/ Strings.Contains raw "-" = true \/
   3 <= len raw) /\
  (NewCurrencyPairFromString raw = Panic SliceBoundsOutOfRange \/
   exists p, NewCurrencyPairFromString raw = Ok p).
Proof.
  assert (Hu : "_" <> EmptyString) by discriminate.
  assert (Hh : "-" <> EmptyString) by discriminate.
  rewrite NewCurrencyPairFromString_unroll.
  destruct (Strings.Contains raw "_") eqn:H1.
  - pose proof (NewCurrencyPairDelimiter_returns _ _ Hu H1) as Hp.
    split; [split; auto | now right].
  - destruct (Strings.Contains raw "-") eqn:H2.
    + pose proof (NewCurrencyPairDelimiter_returns _ _ Hh H2) as Hp.
      split; [split; auto | now right].
    + destruct (Z_lt_le_dec (len raw) 3) as [Hlt | Hge].
      * rewrite slice_out_of_bounds by lia. cbn [bind].
        split; [|now left]. split.
        -- intros [p Hp]. discriminate.
        -- intros [Hc | [Hc | Hc]]; [discriminate | discriminate | lia].
      * rewrite fixed_split by exact Hge.
        split; [split; eauto | right; eauto].
Qed.

Lemma NewCurrencyPairFromString_returns_witness :
  exists p, NewCurrencyPairFromString "x-" = Ok p.
Proof.
  apply (proj1 (NewCurrencyPairFromString_returns "x-")).
  right; left; reflexivity.
Defined.

(** X14.  The string of a pair returned by [NewCurrencyPairFromString] is a
    prefix of the raw string.  Its delimiter is [""], ["_"] or ["-"]: when
    empty, the raw string holds neither ["_"] nor ["-"], the first currency
    has three bytes and nothing is lost; otherwise the delimiter occurs in
    the raw string and in neither currency. *)
Theorem NewCurrencyPairFromString_shape (raw : string) (p : CurrencyPair) :
  NewCurrencyPairFromString raw = Ok p ->
  HasPrefix raw (Pair p) = true /\
  (Delimiter p = EmptyString \/ Delimiter p = "_" \/ Delimiter p = "-") /\
  (Delimiter p = EmptyString ->
   Strings.Contains raw "_" = false /\ Strings.Contains raw "-" = false /\
   len (FirstCurrency p) = 3 /\ Pair p = raw) /\
  (Delimiter p <> EmptyString ->
   Strings.Contains raw (Delimiter p) = true /\
   Strings.Contains (FirstCurrency p) (Delimiter p) = false /\
   Strings.Contains (SecondCurrency p) (Delimiter p) = false).
Proof.
  assert (Hu : "_" <> EmptyString) by discriminate.
  assert (Hh : "-" <> EmptyString) by discriminate.
  rewrite NewCurrencyPairFromString_unroll.
  destruct (Strings.Contains raw "_") eqn:H1;
    [|destruct (Strings.Contains raw "-") eqn:H2].
  - intros Hp.
    destruct (NewCurrencyPairDelimiter_shape _ _ _ Hu Hp) as [Hd [Hf [Hs Hx]]].
    rewrite Hd. repeat split; auto; intros; congruence.
  - intros Hp.
    destruct (NewCurrencyPairDelimiter_shape _ _ _ Hh Hp) as [Hd [Hf [Hs Hx]]].
    rewrite Hd. repeat split; auto; intros; congruence.
  - destruct (Z_lt_le_dec (len raw) 3) as [Hlt | Hge].
    + rewrite slice_out_of_bounds by lia. discriminate.
    + rewrite fixed_split by exact Hge. intros [= <-].
      cbn [Delimiter FirstCurrency SecondCurrency].
      change (Pair _) with (take 3 raw ++ drop 3 raw)%string.
      rewrite take_drop.
      split; [apply HasPrefix_refl | split; [now left | split]].
      * intros _. split; [reflexivity | split; [reflexivity | split]];
          [|reflexivity].
        change (Z.of_nat (String.length (take 3 raw)) = 3).
        unfold len in Hge. rewrite length_take. lia.
      * congruence.
Qed.

Lemma NewCurrencyPairFromString_shape_witness :
  HasPrefix "ETH-BTC-PERP"
    (Pair {| Delimiter := "-"; FirstCurrency := "ETH";
             SecondCurrency := "BTC" |}) = true.
Proof.
  apply (NewCurrencyPairFromString_shape "ETH-BTC-PERP"). reflexivity.
Defined.

(** X15.  [NewCurrencyPairFromString] reads a pair back from its string
    when the currencies hold neither ["_"] nor ["-"] and the delimiter is
    ["_"], or ["-"], or empty with a first currency of three bytes.  (For
    the delimiter ["_"] the currencies may hold ["-"].) *)
Theorem NewCurrencyPairFromString_round_trip (p : CurrencyPair) :
  Strings.Contains (FirstCurrency p) "_" = false ->
  Strings.Contains (SecondCurrency p) "_" = false ->
  (Delimiter p = "_" \/
   (Strings.Contains (FirstCurrency p) "-" = false /\
    Strings.Contains (SecondCurrency p) "-" = false /\
    (Delimiter p = "-" \/
     (Delimiter p = EmptyString /\ len (FirstCurrency p) = 3)))) ->
  NewCurrencyPairFromString (Pair p) = Ok p.
Proof.
  destruct p as [d a b]. cbn [Delimiter FirstCurrency SecondCurrency].
  unfold Pair. cbn [Delimiter FirstCurrency SecondCurrency].
  intros Ha Hb Hcase. apply Contains_false in Ha, Hb.
  rewrite NewCurrencyPairFromString_unroll.
  destruct Hcase as [-> | [Ha' [Hb' [-> | [-> Hlen]]]]].
  - replace (Strings.Contains (a ++ "_" ++ b) "_") with true.
    + now apply byte_delimiter_round_trip.
    + symmetry. apply Contains_true. eexists.
      now apply firstOccurrence_byte.
  - apply Contains_false in Ha', Hb'.
    replace (Strings.Contains (a ++ "-" ++ b) "_") with false.
    + replace (Strings.Contains (a ++ "-" ++ b) "-") with true.
      * now apply byte_delimiter_round_trip.
      * symmetry. apply Contains_true. eexists.
        now apply firstOccurrence_byte.
    + symmetry. apply Contains_false.
      apply firstOccurrence_byte_app; [exact Ha|].
      apply (firstOccurrence_byte_app "_" "-" b); [reflexivity | exact Hb].
  - apply Contains_false in Ha', Hb'.
    cbn [String.append].
    replace (Strings.Contains (a ++ b) "_") with false
      by (symmetry; apply Contains_false;
          now apply firstOccurrence_byte_app).
    replace (Strings.Contains (a ++ b) "-") with false
      by (symmetry; apply Contains_false;
          now apply firstOccurrence_byte_app).
    unfold len in Hlen.
    rewrite fixed_split by (unfold len; rewrite length_append; lia).
    replace 3%nat with (String.length a) by lia.
    now rewrite take_app_length, drop_app_length.
Qed.

Lemma NewCurrencyPairFromString_round_trip_witness :
  NewCurrencyPairFromString
    (Pair {| Delimiter := "-"; FirstCurrency := "DOGE";
             SecondCurrency := "usdt" |}) =
  Ok {| Delimiter := "-"; FirstCurrency := "DOGE"; SecondCurrency := "usdt" |}
  /\
  NewCurrencyPairFromString (Pair (NewCurrencyPair "BTC" "USD")) =
  Ok (NewCurrencyPair "BTC" "USD").
Proof.
  split.
  - apply NewCurrencyPairFromString_round_trip;
      [reflexivity | reflexivity |].
    right. split; [reflexivity | split; [reflexivity | now left]].
  - apply NewCurrencyPairFromString_round_trip;
      [reflexivity | reflexivity |].
    right. split; [reflexivity | split; [reflexivity | right]].
    split; reflexivity.
Defined.

(** ** Further properties: [FormatPairs] and [PairsToStringArray] *)

(** The slice built so far only prefixes what the rest of the loop adds. *)
Lemma formatLoop_result (pairs : list string) (delimiter index : string) :
  forall result : list CurrencyPair,
    formatLoop pairs delimiter index result =
    (l <- formatLoop pairs delimiter index [] ;; Ok (result ++ l)%list).
Proof.
  induction pairs as [|x pairs IH]; intros result; cbn [formatLoop].
  - cbn [bind]. now rewrite List.app_nil_r.
  - destruct (x =? EmptyString)%string; [apply IH|].
    fold (formatEntry x delimiter index).
    destruct (formatEntry x delimiter index) as [p|e]; cbn [bind];
      [|reflexivity].
    rewrite (IH (result ++ [p])%list), (IH ([] ++ [p])%list).
    destruct (formatLoop pairs delimiter index []) as [l|e]; cbn [bind];
      [|reflexivity].
    now rewrite <- List.app_assoc.
Qed.

Lemma FormatPairs_nil (delimiter index : string) :
  FormatPairs [] delimiter index = Ok [].
Proof. reflexivity. Qed.

Lemma FormatPairs_skip (pairs : list string) (delimiter index : string) :
  FormatPairs (EmptyString :: pairs) delimiter index =
  FormatPairs pairs delimiter index.
Proof. reflexivity. Qed.

Lemma FormatPairs_entry (x : string) (pairs : list string)
  (delimiter index : string) :
  nonEmpty x = true ->
  FormatPairs (x :: pairs) delimiter index =
  (p <- formatEntry x delimiter index ;;
   l <- FormatPairs pairs delimiter index ;;
   Ok (p :: l)).
Proof.
  unfold nonEmpty, FormatPairs. intros Hx. apply negb_true_iff in Hx.
  cbn [formatLoop]. rewrite Hx. fold (formatEntry x delimiter index).
  destruct (formatEntry x delimiter index) as [p|e]; cbn [bind];
    [|reflexivity].
  now rewrite formatLoop_result.
Qed.

Lemma FormatPairs_cons (x : string) (pairs : list string)
  (delimiter index : string) :
  FormatPairs (x :: pairs) delimiter index =
  if nonEmpty x
  then (p <- formatEntry x delimiter index ;;
        l <- FormatPairs pairs delimiter index ;;
        Ok (p :: l))
  else FormatPairs pairs delimiter index.
Proof.
  destruct (nonEmpty x) eqn:Hx; [now apply FormatPairs_entry|].
  unfold nonEmpty in Hx. apply negb_false_iff, String.eqb_eq in Hx.
  subst x. apply FormatPairs_skip.
Qed.

(** X16.  [FormatPairs] skips empty entries: the result is that for the
    non-empty entries alone, and a slice of empty entries gives an empty
    result.  Over a concatenation it is the results for the two parts, the
    first panic ending the whole. *)
Theorem FormatPairs_skips_empty (pairs more : list string)
  (delimiter index : string) :
  FormatPairs pairs delimiter index =
  FormatPairs (List.filter nonEmpty pairs) delimiter index /\
  (List.filter nonEmpty pairs = [] ->
   FormatPairs pairs delimiter index = Ok []) /\
  FormatPairs (pairs ++ more) delimiter index =
  (l <- FormatPairs pairs delimiter index ;;
   m <- FormatPairs more delimiter index ;;
   Ok (l ++ m)%list).
Proof.
  assert (Hfilter : FormatPairs pairs delimiter index =
                    FormatPairs (List.filter nonEmpty pairs) delimiter index).
  { induction pairs as [|x pairs IH]; [reflexivity|].
    cbn [List.filter]. rewrite FormatPairs_cons.
    destruct (nonEmpty x) eqn:Hx; [|exact IH].
    rewrite (FormatPairs_entry _ _ _ _ Hx), IH. reflexivity. }
  split; [exact Hfilter | split].
  - intros Hnil. now rewrite Hfilter, Hnil.
  - clear Hfilter. induction pairs as [|x pairs IH]; cbn [app].
    + rewrite FormatPairs_nil. cbn [bind].
      now destruct (FormatPairs more delimiter index).
    + rewrite !FormatPairs_cons, IH.
      destruct (nonEmpty x); [|reflexivity].
      destruct (formatEntry x delimiter index) as [p|e]; cbn [bind];
        [|reflexivity].
      destruct (FormatPairs pairs delimiter index) as [l|e]; cbn [bind];
        [|reflexivity].
      now destruct (FormatPairs more delimiter index).
Qed.

Lemma FormatPairs_skips_empty_witness :
  FormatPairs [EmptyString; EmptyString] "-" EmptyString = Ok [].
Proof.
  apply (proj1 (proj2 (FormatPairs_skips_empty _ [] "-" EmptyString))).
  reflexivity.
Defined.

Lemma nonEmpty_true (x : string) : nonEmpty x = true <-> x <> EmptyString.
Proof.
  unfold nonEmpty. rewrite negb_true_iff. split.
  - intros Hx ->. discriminate.
  - intros Hx. apply String.eqb_neq. exact Hx.
Qed.

(** When every non-empty entry gives a pair, [FormatPairs] returns the
    pairs of the non-empty entries, in order. *)
Lemma FormatPairs_all (Q : string -> CurrencyPair -> Prop)
  (pairs : list string) (delimiter index : string) :
  (forall x, In x pairs -> x <> EmptyString ->
             exists p, formatEntry x delimiter index = Ok p /\ Q x p) ->
  exists l, FormatPairs pairs delimiter index = Ok l /\
            Forall2 Q (List.filter nonEmpty pairs) l.
Proof.
  induction pairs as [|x pairs IH]; intros Hall.
  - exists []. split; [reflexivity | constructor].
  - destruct IH as [l [Hl HQ]].
    { intros y Hy. apply Hall. now right. }
    rewrite FormatPairs_cons. cbn [List.filter].
    destruct (nonEmpty x) eqn:Hx; [|eauto].
    destruct (Hall x (or_introl eq_refl) (proj1 (nonEmpty_true x) Hx))
      as [p [Hp Hq]].
    exists (p :: l). rewrite Hp, Hl. split; [reflexivity | now constructor].
Qed.

(** When the non-empty entries can only panic with [e] and one of them
    does, [FormatPairs] panics with [e]. *)
Lemma FormatPairs_panic (e : runtimeError) (pairs : list string)
  (delimiter index : string) :
  (forall x, formatEntry x delimiter index = Panic e \/
             exists p, formatEntry x delimiter index = Ok p) ->
  (exists x, In x pairs /\ x <> EmptyString /\
             formatEntry x delimiter index = Panic e) ->
  FormatPairs pairs delimiter index = Panic e.
Proof.
  intros Hkind. induction pairs as [|y pairs IH]; intros [x [Hin [Hne Hx]]].
  - destruct Hin.
  - rewrite FormatPairs_cons. destruct (nonEmpty y) eqn:Hy.
    + destruct (Hkind y) as [Hp | [p Hp]]; rewrite Hp; [reflexivity|].
      cbn [bind]. rewrite IH; [reflexivity|].
      destruct Hin as [-> | Hin]; [congruence | eauto].
    + apply IH. destruct Hin as [-> | Hin]; [|eauto].
      apply nonEmpty_true in Hne. congruence.
Qed.

Lemma Forall2_length_eq {A B : Type} (Q : A -> B -> Prop)
  (xs : list A) (ys : list B) :
  Forall2 Q xs ys -> List.length ys = List.length xs.
Proof. induction 1; cbn [List.length]; congruence. Qed.

Lemma Forall2_right {A B : Type} (Q : A -> B -> Prop) (P : B -> Prop)
  (xs : list A) (ys : list B) :
  (forall x y, Q x y -> P y) -> Forall2 Q xs ys -> Forall P ys.
Proof. intros HQ. induction 1; constructor; eauto. Qed.

Lemma Forall2_map_eq {A B : Type} (f : B -> A) (xs : list A) (ys : list B) :
  Forall2 (fun x y => f y = x) xs ys -> List.map f ys = xs.
Proof. induction 1; cbn [List.map]; congruence. Qed.

Lemma formatEntry_delimiter (x delimiter index : string) :
  delimiter <> EmptyString ->
  formatEntry x delimiter index = NewCurrencyPairDelimiter x delimiter.
Proof.
  intros Hd. unfold formatEntry.
  apply String.eqb_neq in Hd. now rewrite Hd.
Qed.

Lemma formatEntry_index (x index : string) :
  index <> EmptyString ->
  formatEntry x EmptyString index = NewCurrencyPairFromIndex x index.
Proof.
  intros Hi. unfold formatEntry.
  apply String.eqb_neq in Hi. now rewrite Hi.
Qed.

Lemma formatEntry_fixed (x : string) :
  formatEntry x EmptyString EmptyString =
  (a <- slice x 0 3 ;; b <- sliceFrom x 3 ;; Ok (NewCurrencyPair a b)).
Proof. reflexivity. Qed.

Lemma NewCurrencyPairDelimiter_panics (raw delimiter : string) :
  Strings.Contains raw delimiter = false ->
  NewCurrencyPairDelimiter raw delimiter = Panic IndexOutOfRange.
Proof.
  intros Hc. apply Contains_false in Hc. unfold NewCurrencyPairDelimiter.
  now rewrite (Split_no_occurrence _ _ Hc).
Qed.

(** The loop of [PairsToStringArray] appends the strings of the pairs. *)
Lemma stringArrayLoop_map (pairs : list CurrencyPair) (p : list string) :
  stringArrayLoop pairs p = (p ++ List.map Pair pairs)%list.
Proof.
  revert p; induction pairs as [|x pairs IH]; intros p;
    cbn [stringArrayLoop List.map].
  - now rewrite List.app_nil_r.
  - rewrite IH, <- List.app_assoc. reflexivity.
Qed.

Lemma PairsToStringArray_map (pairs : list CurrencyPair) :
  PairsToStringArray pairs = List.map Pair pairs.
Proof. unfold PairsToStringArray. now rewrite stringArrayLoop_map. Qed.

(** X17.  With a non-empty delimiter, [FormatPairs] ignores the index
    token.  If every non-empty entry holds the delimiter it returns one pair
    per non-empty entry, each storing the delimiter and holding it in
    neither currency; if some non-empty entry does not hold the delimiter it
    panics (index out of range) and returns nothing. *)
Theorem FormatPairs_by_delimiter (pairs : list string)
  (delimiter index : string) :
  delimiter <> EmptyString ->
  FormatPairs pairs delimiter index = FormatPairs pairs delimiter EmptyString /\
  ((forall x, In x pairs -> x <> EmptyString ->
              Strings.Contains x delimiter = true) ->
   exists l,
     FormatPairs pairs delimiter index = Ok l /\
     List.length l = List.length (List.filter nonEmpty pairs) /\
     Forall (fun p => Delimiter p = delimiter /\
                      Strings.Contains (FirstCurrency p) delimiter = false /\
                      Strings.Contains (SecondCurrency p) delimiter = false)
            l) /\
  ((exists x, In x pairs /\ x <> EmptyString /\
              Strings.Contains x delimiter = false) ->
   FormatPairs pairs delimiter index = Panic IndexOutOfRange).
Proof.
  intros Hd. split; [|split].
  - induction pairs as [|x pairs IH]; [reflexivity|].
    now rewrite !FormatPairs_cons, IH, !formatEntry_delimiter.
  - intros Hall.
    destruct (FormatPairs_all
                (fun _ p => Delimiter p = delimiter /\
                   Strings.Contains (FirstCurrency p) delimiter = false /\
                   Strings.Contains (SecondCurrency p) delimiter = false)
                pairs delimiter index) as [l [Hl HQ]].
    { intros x Hx Hne. rewrite formatEntry_delimiter by exact Hd.
      destruct (NewCurrencyPairDelimiter_returns _ _ Hd (Hall x Hx Hne))
        as [p Hp].
      exists p. split; [exact Hp|].
      destruct (NewCurrencyPairDelimiter_shape _ _ _ Hd Hp) as [? [? [? _]]].
      auto. }
    exists l. split; [exact Hl | split].
    + exact (Forall2_length_eq _ _ _ HQ).
    + apply (Forall2_right _ _ _ _ (fun _ _ Hq => Hq) HQ).
  - intros [x [Hin [Hne Hx]]]. apply FormatPairs_panic.
    + intros y. rewrite formatEntry_delimiter by exact Hd.
      destruct (Strings.Contains y delimiter) eqn:Hy.
      * right. now apply NewCurrencyPairDelimiter_returns.
      * left. now apply NewCurrencyPairDelimiter_panics.
    + exists x. rewrite formatEntry_delimiter by exact Hd.
      split; [exact Hin | split; [exact Hne|]].
      now apply NewCurrencyPairDelimiter_panics.
Qed.

Lemma FormatPairs_by_delimiter_witness :
  (exists l, FormatPairs ["BTC-USD"; EmptyString; "ETH-USD-PERP"] "-" "USD"
             = Ok l /\ List.length l = 2%nat) /\
  FormatPairs ["BTC-USD"; EmptyString; "ETHUSD"] "-" "USD"
  = Panic IndexOutOfRange.
Proof.
  assert (Hd : "-" <> EmptyString) by discriminate.
  split.
  - destruct (proj1 (proj2 (FormatPairs_by_delimiter
                ["BTC-USD"; EmptyString; "ETH-USD-PERP"] "-" "USD" Hd)))
      as [l [Hl [Hn _]]].
    + intros x [<- | [<- | [<- | []]]] Hne;
        [reflexivity | congruence | reflexivity].
    + exists l. split; [exact Hl | exact Hn].
  - apply (proj2 (proj2 (FormatPairs_by_delimiter
             ["BTC-USD"; EmptyString; "ETHUSD"] "-" "USD" Hd))).
    exists "ETHUSD". split; [right; right; left; reflexivity|].
    split; [discriminate | reflexivity].
Defined.

(** [NewCurrencyPairFromIndex] on a string that holds the index token. *)
Lemma NewCurrencyPairFromIndex_found (raw indexToken : string) :
  Strings.Contains raw indexToken = true ->
  exists p, NewCurrencyPairFromIndex raw indexToken = Ok p /\
            Delimiter p = EmptyString /\ Pair p = raw.
Proof.
  intros Hc. apply Contains_true in Hc as [[|i] Hi].
  - rewrite (NewCurrencyPairFromIndex_at_start _ _ Hi).
    eexists. split; [reflexivity | split; [reflexivity|]].
    change (Pair _)
      with (indexToken ++ drop (String.length indexToken) raw)%string.
    symmetry. apply HasPrefix_inv. exact (firstOccurrence_prefix _ _ _ Hi).
  - rewrite (NewCurrencyPairFromIndex_inside _ _ _ Hi).
    eexists. split; [reflexivity | split; [reflexivity|]].
    change (Pair _) with (take (S i) raw ++ drop (S i) raw)%string.
    apply take_drop.
Qed.

(** X18.  With an empty delimiter and a non-empty index token:
    if every non-empty entry holds the token, [FormatPairs] returns pairs
    with empty delimiters whose strings ([PairsToStringArray]) are the
    non-empty entries, in order; if some non-empty entry does not hold it,
    [FormatPairs] panics (slice bounds out of range). *)
Theorem FormatPairs_by_index (pairs : list string) (index : string) :
  index <> EmptyString ->
  ((forall x, In x pairs -> x <> EmptyString ->
              Strings.Contains x index = true) ->
   exists l,
     FormatPairs pairs EmptyString index = Ok l /\
     PairsToStringArray l = List.filter nonEmpty pairs /\
     Forall (fun p => Delimiter p = EmptyString) l) /\
  ((exists x, In x pairs /\ x <> EmptyString /\
              Strings.Contains x index = false) ->
   FormatPairs pairs EmptyString index = Panic SliceBoundsOutOfRange).
Proof.
  intros Hi. split.
  - intros Hall.
    destruct (FormatPairs_all
                (fun x p => Pair p = x /\ Delimiter p = EmptyString)
                pairs EmptyString index) as [l [Hl HQ]].
    { intros x Hx Hne. rewrite formatEntry_index by exact Hi.
      destruct (NewCurrencyPairFromIndex_found _ _ (Hall x Hx Hne))
        as [p [Hp [Hd Hs]]]. eauto. }
    exists l. split; [exact Hl | split].
    + rewrite PairsToStringArray_map. apply Forall2_map_eq.
      revert HQ. apply Forall2_impl. tauto.
    + apply (Forall2_right _ _ _ _ (fun _ _ Hq => proj2 Hq) HQ).
  - intros [x [Hin [Hne Hx]]]. apply FormatPairs_panic.
    + intros y. rewrite formatEntry_index by exact Hi.
      destruct (Strings.Contains y index) eqn:Hy.
      * right. destruct (NewCurrencyPairFromIndex_found _ _ Hy) as [p [Hp _]].
        eauto.
      * left. apply NewCurrencyPairFromIndex_absent.
        now apply Contains_false.
    + exists x. rewrite formatEntry_index by exact Hi.
      split; [exact Hin | split; [exact Hne|]].
      apply NewCurrencyPairFromIndex_absent. now apply Contains_false.
Qed.

Lemma FormatPairs_by_index_witness :
  (exists l, FormatPairs ["BTCUSD"; EmptyString; "USDETH"] EmptyString "USD"
             = Ok l /\ PairsToStringArray l = ["BTCUSD"; "USDETH"]) /\
  FormatPairs ["BTCUSD"; "ETHBTC"] EmptyString "USD"
  = Panic SliceBoundsOutOfRange.
Proof.
  assert (Hi : "USD" <> EmptyString) by discriminate.
  split.
  - destruct (proj1 (FormatPairs_by_index
                ["BTCUSD"; EmptyString; "USDETH"] "USD" Hi))
      as [l [Hl [Hs _]]].
    + intros x [<- | [<- | [<- | []]]] Hne;
        [reflexivity | congruence | reflexivity].
    + exists l. split; [exact Hl | exact Hs].
  - apply (proj2 (FormatPairs_by_index ["BTCUSD"; "ETHBTC"] "USD" Hi)).
    exists "ETHBTC". split; [right; left; reflexivity|].
    split; [discriminate | reflexivity].
Defined.

(** X19.  With an empty delimiter and an empty index token: if every
    non-empty entry has at least three bytes, [FormatPairs] returns pairs
    with empty delimiters and first currencies of three bytes whose strings
    are the non-empty entries, in order; if some non-empty entry has fewer
    than three bytes, [FormatPairs] panics (slice bounds out of range). *)
Theorem FormatPairs_fixed (pairs : list string) :
  ((forall x, In x pairs -> x <> EmptyString -> 3 <= len x) ->
   exists l,
     FormatPairs pairs EmptyString EmptyString = Ok l /\
     PairsToStringArray l = List.filter nonEmpty pairs /\
     Forall (fun p => Delimiter p = EmptyString /\
                      len (FirstCurrency p) = 3) l) /\
  ((exists x, In x pairs /\ x <> EmptyString /\ len x < 3) ->
   FormatPairs pairs EmptyString EmptyString = Panic SliceBoundsOutOfRange).
Proof.
  split.
  - intros Hall.
    destruct (FormatPairs_all
                (fun x p => Pair p = x /\ Delimiter p = EmptyString /\
                            len (FirstCurrency p) = 3)
                pairs EmptyString EmptyString) as [l [Hl HQ]].
    { intros x Hx Hne. rewrite formatEntry_fixed.
      pose proof (Hall x Hx Hne) as Hlen.
      rewrite fixed_split by exact Hlen.
      eexists. split; [reflexivity | split; [|split; [reflexivity|]]].
      - change (Pair _) with (take 3 x ++ drop 3 x)%string. apply take_drop.
      - cbn [FirstCurrency]. unfold len in *. rewrite length_take. lia. }
    exists l. split; [exact Hl | split].
    + rewrite PairsToStringArray_map. apply Forall2_map_eq.
      revert HQ. apply Forall2_impl. tauto.
    + apply (Forall2_right _ _ _ _ (fun _ _ Hq => proj2 Hq) HQ).
  - intros [x [Hin [Hne Hx]]]. apply FormatPairs_panic.
    + intros y. rewrite formatEntry_fixed.
      destruct (Z_lt_le_dec (len y) 3) as [Hlt | Hge].
      * left. now rewrite slice_out_of_bounds by lia.
      * right. rewrite fixed_split by exact Hge. eauto.
    + exists x. rewrite formatEntry_fixed.
      split; [exact Hin | split; [exact Hne|]].
      now rewrite slice_out_of_bounds by lia.
Qed.

Lemma FormatPairs_fixed_witness :
  (exists l, FormatPairs ["BTCUSD"; EmptyString; "ETHUSDT"]
               EmptyString EmptyString = Ok l /\
             PairsToStringArray l = ["BTCUSD"; "ETHUSDT"]) /\
  FormatPairs ["BTCUSD"; "ET"] EmptyString EmptyString
  = Panic SliceBoundsOutOfRange.
Proof.
  split.
  - destruct (proj1 (FormatPairs_fixed ["BTCUSD"; EmptyString; "ETHUSDT"]))
      as [l [Hl [Hs _]]].
    + intros x [<- | [<- | [<- | []]]] Hne;
        [vm_compute; discriminate | congruence | vm_compute; discriminate].
    + exists l. split; [exact Hl | exact Hs].
  - apply (proj2 (FormatPairs_fixed ["BTCUSD"; "ET"])).
    exists "ET". split; [right; left; reflexivity|].
    split; [discriminate | reflexivity].
Defined.

(** X20.  [PairsToStringArray] returns the strings of the pairs in order:
    as many strings as pairs, and over a concatenation the strings of the
    two parts. *)
Theorem PairsToStringArray_strings (pairs more : list CurrencyPair) :
  PairsToStringArray pairs = List.map Pair pairs /\
  List.length (PairsToStringArray pairs) = List.length pairs /\
  PairsToStringArray (pairs ++ more) =
  (PairsToStringArray pairs ++ PairsToStringArray more)%list.
Proof.
  rewrite !PairsToStringArray_map. split; [reflexivity | split].
  - apply List.length_map.
  - apply List.map_app.
Qed.

Lemma append_nonEmpty (a b : string) :
  b <> EmptyString -> nonEmpty (a ++ b) = true.
Proof.
  intros Hb. apply nonEmpty_true. intros Hab.
  apply (f_equal String.length) in Hab. rewrite length_append in Hab.
  destruct b; [congruence | cbn [String.length] in Hab; lia].
Qed.

(** X21.  [FormatPairs] reads back what [PairsToStringArray] wrote: for
    pairs that all store the same one-byte delimiter and hold it in neither
    currency, with that delimiter (and any index token); and for pairs with
    empty delimiters and first currencies of three bytes, with an empty
    delimiter and an empty index token. *)
Theorem FormatPairs_PairsToStringArray (pairs : list CurrencyPair) :
  (forall (c : ascii) (index : string),
      Forall (fun p =>
                Delimiter p = String c EmptyString /\
                Strings.Contains (FirstCurrency p) (String c EmptyString)
                = false /\
                Strings.Contains (SecondCurrency p) (String c EmptyString)
                = false) pairs ->
      FormatPairs (PairsToStringArray pairs) (String c EmptyString) index
      = Ok pairs) /\
  (Forall (fun p => Delimiter p = EmptyString /\ len (FirstCurrency p) = 3)
          pairs ->
   FormatPairs (PairsToStringArray pairs) EmptyString EmptyString = Ok pairs).
Proof.
  rewrite PairsToStringArray_map. split.
  - intros c index Hall. induction Hall as [|p pairs [Hd [Hf Hs]] _ IH];
      [reflexivity|].
    cbn [List.map]. destruct p as [d a b].
    cbn [Delimiter FirstCurrency SecondCurrency] in *. subst d.
    unfold Pair at 1. cbn [Delimiter FirstCurrency SecondCurrency].
    rewrite FormatPairs_entry by (apply append_nonEmpty; discriminate).
    rewrite formatEntry_delimiter by discriminate.
    apply Contains_false in Hf, Hs.
    now rewrite (byte_delimiter_round_trip a b c Hf Hs), IH.
  - intros Hall. induction Hall as [|p pairs [Hd Hlen] _ IH]; [reflexivity|].
    cbn [List.map]. destruct p as [d a b].
    cbn [Delimiter FirstCurrency SecondCurrency] in *. subst d.
    change (Pair _) with (a ++ b)%string. unfold len in Hlen.
    assert (Ha : a <> EmptyString).
    { intros ->. cbn [String.length] in Hlen. lia. }
    rewrite FormatPairs_cons.
    replace (nonEmpty (a ++ b)) with true.
    + rewrite formatEntry_fixed, fixed_split
        by (unfold len; rewrite length_append; lia).
      replace 3%nat with (String.length a) by lia.
      now rewrite take_app_length, drop_app_length, IH.
    + symmetry. apply nonEmpty_true. intros Hab.
      apply (f_equal String.length) in Hab. rewrite length_append in Hab.
      cbn [String.length] in Hab. lia.
Qed.

Lemma FormatPairs_PairsToStringArray_witness :
  FormatPairs
    (PairsToStringArray
       [ {| Delimiter := "/"; FirstCurrency := "BTC";
            SecondCurrency := "USD" |};
         {| Delimiter := "/"; FirstCurrency := "DOGE";
            SecondCurrency := "usdt" |} ]) "/" "x"
  = Ok [ {| Delimiter := "/"; FirstCurrency := "BTC";
            SecondCurrency := "USD" |};
         {| Delimiter := "/"; FirstCurrency := "DOGE";
            SecondCurrency := "usdt" |} ] /\
  FormatPairs
    (PairsToStringArray [NewCurrencyPair "BTC" "USDT"; NewCurrencyPair "ETH" EmptyString])
    EmptyString EmptyString
  = Ok [NewCurrencyPair "BTC" "USDT"; NewCurrencyPair "ETH" EmptyString].
Proof.
  split.
  - apply (proj1 (FormatPairs_PairsToStringArray _) "/"%char "x").
    repeat constructor.
  - apply (proj2 (FormatPairs_PairsToStringArray _)).
    repeat constructor.
Defined.

(** ** Further properties: [FindPairDifferences] and [Display] *)

Section DifferenceLaws.
Context `{CommonStrings}.

(** Each loop of [FindPairDifferences] filters the slice it scans. *)
Lemma newLoop_filter (newPairs oldPairs newPs : list string) :
  newLoop newPairs oldPairs newPs =
  (newPs ++
   List.filter
     (fun x => nonEmpty x && negb (StringDataCompareUpper oldPairs x))
     newPairs)%list.
Proof.
  revert newPs; induction newPairs as [|x rest IH]; intros newPs;
    cbn [newLoop List.filter].
  - now rewrite List.app_nil_r.
  - unfold nonEmpty at 1. destruct (x =? EmptyString)%string; cbn [negb andb].
    + apply IH.
    + destruct (StringDataCompareUpper oldPairs x); cbn [negb].
      * apply IH.
      * rewrite IH, <- List.app_assoc. reflexivity.
Qed.

Lemma removedLoop_filter (oldPairs newPairs removedPs : list string) :
  removedLoop oldPairs newPairs removedPs =
  (removedPs ++
   List.filter
     (fun x => nonEmpty x && negb (StringDataCompareUpper newPairs x))
     oldPairs)%list.
Proof.
  revert removedPs; induction oldPairs as [|x rest IH]; intros removedPs;
    cbn [removedLoop List.filter].
  - now rewrite List.app_nil_r.
  - unfold nonEmpty at 1. destruct (x =? EmptyString)%string; cbn [negb andb].
    + apply IH.
    + destruct (StringDataCompareUpper newPairs x); cbn [negb].
      * apply IH.
      * rewrite IH, <- List.app_assoc. reflexivity.
Qed.

Lemma FindPairDifferences_filters (oldPairs newPairs : list string) :
  FindPairDifferences oldPairs newPairs =
  (List.filter
     (fun x => nonEmpty x && negb (StringDataCompareUpper oldPairs x))
     newPairs,
   List.filter
     (fun x => nonEmpty x && negb (StringDataCompareUpper newPairs x))
     oldPairs).
Proof.
  unfold FindPairDifferences. now rewrite newLoop_filter, removedLoop_filter.
Qed.

(** X22.  The first result of [FindPairDifferences] holds, in their order,
    exactly the non-empty entries of [newPairs] that
    [StringDataCompareUpper] does not find in [oldPairs]; the second result
    the non-empty entries of [oldPairs] that it does not find in
    [newPairs].  Neither result holds an empty string. *)
Theorem FindPairDifferences_entries (oldPairs newPairs : list string) :
  (forall x, In x (fst (FindPairDifferences oldPairs newPairs)) <->
             In x newPairs /\ x <> EmptyString /\
             StringDataCompareUpper oldPairs x = false) /\
  (forall x, In x (snd (FindPairDifferences oldPairs newPairs)) <->
             In x oldPairs /\ x <> EmptyString /\
             StringDataCompareUpper newPairs x = false) /\
  FindPairDifferences oldPairs newPairs =
  (List.filter
     (fun x => nonEmpty x && negb (StringDataCompareUpper oldPairs x))
     newPairs,
   List.filter
     (fun x => nonEmpty x && negb (StringDataCompareUpper newPairs x))
     oldPairs) /\
  ~ In EmptyString (fst (FindPairDifferences oldPairs newPairs)) /\
  ~ In EmptyString (snd (FindPairDifferences oldPairs newPairs)).
Proof.
  rewrite FindPairDifferences_filters. cbn [fst snd].
  assert (Hin : forall other l x,
             In x (List.filter
                     (fun x => nonEmpty x &&
                               negb (StringDataCompareUpper other x)) l) <->
             In x l /\ x <> EmptyString /\
             StringDataCompareUpper other x = false).
  { intros other l x.
    rewrite List.filter_In, andb_true_iff, nonEmpty_true, negb_true_iff.
    reflexivity. }
  split; [apply Hin | split; [apply Hin | split; [reflexivity|]]].
  split; intros Hx; apply Hin in Hx; tauto.
Qed.

(** X23.  Exchanging the two arguments of [FindPairDifferences] exchanges
    its two results. *)
Theorem FindPairDifferences_exchange (oldPairs newPairs : list string) :
  FindPairDifferences newPairs oldPairs =
  (snd (FindPairDifferences oldPairs newPairs),
   fst (FindPairDifferences oldPairs newPairs)).
Proof. now rewrite !FindPairDifferences_filters. Qed.

(** X24.  The first result of [FindPairDifferences] is empty exactly when
    [StringDataCompareUpper] finds every non-empty entry of [newPairs] in
    [oldPairs], and the second exactly when it finds every non-empty entry
    of [oldPairs] in [newPairs]; two empty slices give two empty results. *)
Theorem FindPairDifferences_no_difference (oldPairs newPairs : list string) :
  (fst (FindPairDifferences oldPairs newPairs) = [] <->
   forall x, In x newPairs -> x <> EmptyString ->
             StringDataCompareUpper oldPairs x = true) /\
  (snd (FindPairDifferences oldPairs newPairs) = [] <->
   forall x, In x oldPairs -> x <> EmptyString ->
             StringDataCompareUpper newPairs x = true) /\
  FindPairDifferences [] [] = ([], []).
Proof.
  rewrite FindPairDifferences_filters. cbn [fst snd].
  assert (Hnil : forall other l,
             List.filter
               (fun x => nonEmpty x &&
                         negb (StringDataCompareUpper other x)) l = [] <->
             forall x, In x l -> x <> EmptyString ->
                       StringDataCompareUpper other x = true).
  { intros other l. induction l as [|y l IH]; cbn [List.filter].
    - split; [intros _ x [] | reflexivity].
    - destruct (nonEmpty y) eqn:Hy; cbn [andb].
      + destruct (StringDataCompareUpper other y) eqn:Hc; cbn [negb].
        * rewrite IH. split.
          -- intros Hl x [<- | Hx] Hne; [exact Hc | now apply Hl].
          -- intros Hl x Hx. apply Hl. now right.
        * split; [discriminate|]. intros Hl.
          rewrite (Hl y (or_introl eq_refl) (proj1 (nonEmpty_true y) Hy)) in Hc.
          discriminate.
      + rewrite IH. split.
        * intros Hl x [<- | Hx] Hne; [|now apply Hl].
          apply nonEmpty_true in Hne. congruence.
        * intros Hl x Hx. apply Hl. now right. }
  split; [apply Hnil | split; [apply Hnil | reflexivity]].
Qed.

End DifferenceLaws.

Lemma FindPairDifferences_entries_witness :
  In "LTC_USD"
     (fst (@FindPairDifferences asciiCommon
             ["BTC_USD"; "ETH_USD"] ["btc_usd"; EmptyString; "LTC_USD"])).
Proof.
  apply (proj1 (@FindPairDifferences_entries asciiCommon _ _)).
  split; [right; right; left; reflexivity|].
  split; [discriminate | reflexivity].
Defined.

Lemma FindPairDifferences_no_difference_witness :
  fst (@FindPairDifferences asciiCommon
         ["BTC_USD"; "ETH_USD"] ["eth_usd"; EmptyString; "Btc_Usd"]) = [].
Proof.
  apply (proj1 (@FindPairDifferences_no_difference asciiCommon _ _)).
  intros x [<- | [<- | [<- | []]]] Hne; [reflexivity | congruence | reflexivity].
Defined.

Section DisplayLaws.
Context `{CaseMapping} `{LowerMapping}.

(** X25.  [Display] does not read the stored delimiter; with the pair's own
    delimiter it is the string of the pair in the chosen case, and with an
    empty delimiter it is the two currencies joined in the chosen case. *)
Theorem Display_delimiter (c : CurrencyPair) (delimiter stored : string)
  (uppercase : bool) :
  Display {| Delimiter := stored;
             FirstCurrency := FirstCurrency c;
             SecondCurrency := SecondCurrency c |} delimiter uppercase =
  Display c delimiter uppercase /\
  Display c (Delimiter c) uppercase =
  (if uppercase then Upper (Pair c) else Lower (Pair c)) /\
  Display c EmptyString uppercase =
  (if uppercase then Upper (FirstCurrency c ++ SecondCurrency c)
   else Lower (FirstCurrency c ++ SecondCurrency c)).
Proof.
  split; [reflexivity | split; [|reflexivity]].
  unfold Display, Pair.
  destruct (Delimiter c =? EmptyString)%string eqn:Hd; cbn [negb];
    [|reflexivity].
  apply String.eqb_eq in Hd. rewrite Hd. reflexivity.
Qed.

End DisplayLaws.

(** ** Further properties: targets up to [Equal] *)

Section TargetLaws.
Context `{CaseMapping}.

(** Two pairs that [Equal] accepts compare alike with every third pair. *)
Lemma Equal_congruence (p q x : CurrencyPair) (exact : bool) :
  Equal p q exact = true -> Equal p x exact = Equal q x exact.
Proof.
  intros Hpq. apply eq_true_iff_eq. destruct exact.
  - rewrite !Equal_true_exact in *. intuition congruence.
  - rewrite !Equal_true_any_order in *. intuition congruence.
Qed.

(** X26.  [RemovePairsByFilter] by a code keeps every pair that [Equal]
    accepts against a pair without that currency: for such a pair,
    [Contains] answers the same after the removal as before. *)
Theorem RemovePairsByFilter_keeps_others (pairs : list CurrencyPair)
  (p : CurrencyPair) (code : string) (exact : bool) :
  ContainsCurrency p code = false ->
  Pair.Contains (RemovePairsByFilter pairs code) p exact =
  Pair.Contains pairs p exact.
Proof.
  intros Hp. rewrite RemovePairsByFilter_keep.
  induction pairs as [|x pairs IH]; [reflexivity|].
  cbn [List.filter Pair.Contains].
  destruct (ContainsCurrency x code) eqn:Hx; cbn [negb Pair.Contains].
  - rewrite IH. destruct (Equal x p exact) eqn:He; [|reflexivity].
    apply Equal_weaken, Equal_true_any_order in He.
    unfold ContainsCurrency in Hp, Hx.
    destruct He as [[H1 H2] | [H1 H2]]; rewrite H1, H2 in Hx.
    + congruence.
    + rewrite orb_comm in Hx. congruence.
  - now rewrite IH.
Qed.

(** X27.  [Contains] and [CopyPairFormat] depend on the target pair only up
    to [Equal]: two targets that [Equal] accepts in the given mode give the
    same answers, whatever their delimiters and letter case. *)
Theorem CopyPairFormat_target (p q : CurrencyPair)
  (pairs : list CurrencyPair) (exact : bool) :
  Equal p q exact = true ->
  CopyPairFormat p pairs exact = CopyPairFormat q pairs exact /\
  Pair.Contains pairs p exact = Pair.Contains pairs q exact.
Proof.
  intros Hpq. split.
  - induction pairs as [|x pairs IH]; cbn [CopyPairFormat]; [reflexivity|].
    now rewrite (Equal_congruence p q x exact Hpq), IH.
  - induction pairs as [|x pairs IH]; cbn [Pair.Contains]; [reflexivity|].
    now rewrite (Equal_sym x p), (Equal_sym x q),
                (Equal_congruence p q x exact Hpq), IH.
Qed.

End TargetLaws.

Lemma RemovePairsByFilter_keeps_others_witness :
  @Pair.Contains asciiCase
    (@RemovePairsByFilter asciiCase
       [NewCurrencyPair "BTC" "USD"; NewCurrencyPair "ETH" "EUR"] "usd")
    (NewCurrencyPair "eur" "eth") false
  = @Pair.Contains asciiCase
      [NewCurrencyPair "BTC" "USD"; NewCurrencyPair "ETH" "EUR"]
      (NewCurrencyPair "eur" "eth") false.
Proof.
  apply (@RemovePairsByFilter_keeps_others asciiCase). reflexivity.
Defined.

Lemma CopyPairFormat_target_witness :
  @CopyPairFormat asciiCase (NewCurrencyPair "btc" "usd")
    [ {| Delimiter := "-"; FirstCurrency := "BTC"; SecondCurrency := "USD" |} ]
    true
  = @CopyPairFormat asciiCase
      {| Delimiter := "/"; FirstCurrency := "Btc"; SecondCurrency := "Usd" |}
      [ {| Delimiter := "-"; FirstCurrency := "BTC"; SecondCurrency := "USD" |} ]
      true.
Proof.
  apply (@CopyPairFormat_target asciiCase). reflexivity.
Defined.

End PairLaws.
